(** * The ingestion and cleaning pipeline of the video-game CSV explorer

    A shallow embedding of [index.py]: the delimiter detector
    [detect_file_properties], the upload loader [load_uploaded_file], the
    cleaning pipeline [clean_data] and the script around them, together
    with the Python string methods and the pandas operations that they
    call.

    The first half of the file holds the definitions, the second half the
    properties. *)

From Stdlib Require Import ZArith NArith QArith Ascii String List Bool Lia.
From Stdlib.Strings Require Import Byte.
From stdpp Require Import base option list gmap.

Local Open Scope N_scope.

(** * Part I: the program *)

(** ** Python strings

    A Python [str] is a sequence of Unicode code points. *)

Definition codepoint := N.
Definition pystr := list codepoint.

(** ASCII literals. *)
Fixpoint lit (s : string) : pystr :=
  match s with
  | EmptyString => []
  | String a s' => N_of_ascii a :: lit s'
  end.

(** The Unicode character database is not part of the program. The
    whitespace predicate used by [str.strip] and the full (one to many)
    upper-case mapping used by [str.upper] are parameters. *)
Class Unicode := {
  isspace : codepoint → bool;
  toupper_full : codepoint → list codepoint
}.

(** The facts about the database that the properties below rely on. All
    three hold of the tables of CPython (checked over all code points of
    Unicode 14). *)
Class UnicodeLaws (U : Unicode) : Prop := {
  toupper_nonempty : ∀ c, toupper_full c ≠ [];
  toupper_not_space : ∀ c d,
    isspace c = false → d ∈ toupper_full c → isspace d = false;
  toupper_idem : ∀ c, toupper_full c ≫= toupper_full = toupper_full c
}.

Section PyStr.
Context {U : Unicode}.

(** [str.upper()]: every code point is replaced by its full upper-case
    mapping, whatever its context. *)
Definition str_upper (s : pystr) : pystr := s ≫= toupper_full.

Fixpoint lstrip (s : pystr) : pystr :=
  match s with
  | [] => []
  | c :: s' => if isspace c then lstrip s' else s
  end.

Definition rstrip (s : pystr) : pystr := reverse (lstrip (reverse s)).

(** [str.strip()] without argument removes whitespace at both ends. *)
Definition str_strip (s : pystr) : pystr := rstrip (lstrip s).

End PyStr.

(** [str.count] of a one-character needle. *)
Definition count_char (c : codepoint) (s : pystr) : nat :=
  length (filter (λ d, d = c) s).

(** A small instance of the database, the ASCII letters and the ASCII
    whitespace characters, on which the pipeline can be evaluated. *)
Definition ascii_isspace (c : codepoint) : bool :=
  ((9 <=? c) && (c <=? 13)) || ((28 <=? c) && (c <=? 32)).

Definition ascii_toupper (c : codepoint) : list codepoint :=
  if (97 <=? c) && (c <=? 122) then [c - 32] else [c].

Definition ascii_unicode : Unicode :=
  {| isspace := ascii_isspace; toupper_full := ascii_toupper |}.

(** ** Numbers

    The numeric cells of a table are float64 or int64 values. A number is
    modelled by its exact value, a rational in lowest terms, or by an
    infinity; binary rounding is not modelled, and neither is the overflow
    of a decimal string that lies beyond the range of float64. *)

Inductive number :=
  | Finite (q : Q)
  | Inf (negative : bool).

Global Instance Q_eq_dec : EqDecision Q.
Proof. solve_decision. Defined.

Global Instance number_eq_dec : EqDecision number.
Proof. solve_decision. Defined.

(** *** Reading a string as a number

    [pd.to_numeric] hands every string cell to the string to double
    conversion of the C tokenizer: optional ASCII whitespace, an optional
    sign, decimal digits with an optional fractional part (one digit at
    least in all), an optional exponent, optional trailing whitespace, and
    nothing else. The words [inf] and [infinity], in any case and with an
    optional sign, are read as infinities. *)

Definition c_isspace (c : codepoint) : bool :=
  (c =? 32) || ((9 <=? c) && (c <=? 13)).

Definition is_digit (c : codepoint) : bool := (48 <=? c) && (c <=? 57).

Fixpoint skip_ws (s : pystr) : pystr :=
  match s with
  | c :: s' => if c_isspace c then skip_ws s' else s
  | [] => []
  end.

Definition take_sign (s : pystr) : bool * pystr :=
  match s with
  | 45 :: s' => (true, s')
  | 43 :: s' => (false, s')
  | _ => (false, s)
  end.

(** A run of digits: its value continuing [acc], its length, the rest. *)
Fixpoint take_digits (acc : N) (n : nat) (s : pystr) : N * nat * pystr :=
  match s with
  | c :: s' => if is_digit c then take_digits (10 * acc + (c - 48)) (S n) s'
               else (acc, n, s)
  | [] => (acc, n, [])
  end.

Definition take_fraction (acc : N) (s : pystr) : N * nat * pystr :=
  match s with
  | 46 :: s' => take_digits acc 0 s'
  | _ => (acc, 0%nat, s)
  end.

Definition take_exponent (s : pystr) : option (Z * pystr) :=
  match s with
  | c :: s' =>
      if (c =? 101) || (c =? 69) then
        let '(neg, s1) := take_sign s' in
        let '(e, n, s2) := take_digits 0 0 s1 in
        match n with
        | O => None
        | _ => Some (if neg then (- Z.of_N e)%Z else Z.of_N e, s2)
        end
      else Some (0%Z, s)
  | [] => Some (0%Z, [])
  end.

(** The value [m * 10 ^ e], in lowest terms. *)
Definition scale10 (m : Z) (e : Z) : Q :=
  if (0 <=? e)%Z then Qmake (m * 10 ^ e) 1
  else Qred (Qmake m (Z.to_pos (10 ^ (- e)))).

Definition xstrtod (s : pystr) : option Q :=
  let '(neg, s1) := take_sign (skip_ws s) in
  let '(ip, n1, s2) := take_digits 0 0 s1 in
  let '(m, n2, s3) := take_fraction ip s2 in
  match (n1 + n2)%nat with
  | O => None
  | _ =>
      match take_exponent s3 with
      | Some (e, s4) =>
          match skip_ws s4 with
          | [] =>
              let mz := if neg then (- Z.of_N m)%Z else Z.of_N m in
              Some (scale10 mz (e - Z.of_nat n2))
          | _ => None
          end
      | None => None
      end
  end.

Definition ascii_lower (c : codepoint) : codepoint :=
  if (65 <=? c) && (c <=? 90) then c + 32 else c.

Definition parse_inf (s : pystr) : option bool :=
  let '(neg, w) := take_sign s in
  let w' := ascii_lower <$> w in
  if bool_decide (w' = lit "inf" ∨ w' = lit "infinity") then Some neg else None.

Definition floatify (s : pystr) : option number :=
  match xstrtod s with
  | Some q => Some (Finite q)
  | None => Inf <$> parse_inf s
  end.

(** ** Exceptions and results *)

Inductive exn :=
  | AttributeError
  | TypeError
  | LookupError
  | UnicodeDecodeError
  | KeyError
  | InvalidRef
  | OtherError (code : N).

Global Instance exn_eq_dec : EqDecision exn.
Proof. solve_decision. Defined.

Inductive result (A : Type) :=
  | Ok (a : A)
  | Raise (e : exn).
Arguments Ok {A} a.
Arguments Raise {A} e.

Global Instance result_ret : MRet result := λ A a, Ok a.

Global Instance result_bind : MBind result := λ A B f m,
  match m with
  | Ok a => f a
  | Raise e => Raise e
  end.

(** Commands that run on a state of type [S]: they return a value or
    raise, and leave a state. *)
Definition ST (S A : Type) : Type := S → result A * S.

Global Instance st_ret S : MRet (ST S) := λ A a σ, (Ok a, σ).

Global Instance st_bind S : MBind (ST S) := λ A B f m σ,
  match m σ with
  | (Ok a, σ') => f a σ'
  | (Raise e, σ') => (Raise e, σ')
  end.

Definition raise {S A} (e : exn) : ST S A := λ σ, (Raise e, σ).

Definition lift {S A} (r : result A) : ST S A := λ σ, (r, σ).

(** [try: body except E as e: handler(e)], where [catches] tells which
    exceptions the clause names. *)
Definition try_except {S A} (body : ST S A) (catches : exn → bool)
    (handler : exn → ST S A) : ST S A := λ σ,
  match body σ with
  | (Raise e, σ') => if catches e then handler e σ' else (Raise e, σ')
  | ok => ok
  end.

(** ** Tables

    A cell is a string, a number or the missing marker. A column (a pandas
    [Series]) is either of a numeric dtype, and then holds numbers and
    missing markers only, or of dtype [object], and then holds arbitrary
    cells. *)

Inductive cell :=
  | Str (s : pystr)
  | Num (x : number)
  | NaN.

Global Instance cell_eq_dec : EqDecision cell.
Proof. solve_decision. Defined.

Inductive Series :=
  | Numeric (v : list (option number))
  | Object (v : list cell).

Definition num_cell (o : option number) : cell :=
  match o with Some x => Num x | None => NaN end.

Definition values (s : Series) : list cell :=
  match s with
  | Numeric v => num_cell <$> v
  | Object v => v
  end.

(** A [DataFrame]: the row labels and the named columns, in order. *)
Record DataFrame := {
  index : list Z;
  data : list (pystr * Series)
}.

Definition columns (df : DataFrame) : list pystr := fst <$> data df.

(** Well-formed frames: the column names are distinct and every column
    has one cell per row label. *)
Definition wf (df : DataFrame) : Prop :=
  NoDup (columns df) ∧
  Forall (λ c, length (values c.2) = length (index df)) (data df).

Global Instance wf_dec df : Decision (wf df).
Proof. unfold wf. apply _. Defined.

(** The rows of a frame: its columns, transposed. *)
Fixpoint transpose (n : nat) (cols : list (list cell)) : list (list cell) :=
  match cols with
  | [] => replicate n []
  | c :: cs => zip_with cons c (transpose n cs)
  end.

Definition rows (df : DataFrame) : list (list cell) :=
  transpose (length (index df)) ((λ c, values c.2) <$> data df).

(** The cells of row [i], column by column. *)
Definition row_at (df : DataFrame) (i : nat) : list cell :=
  (λ c, nth i (values c.2) NaN) <$> data df.

(** *** Column access: [df[col]] and [df[col] = s] *)

Fixpoint lookup_col (col : pystr) (d : list (pystr * Series)) : option Series :=
  match d with
  | [] => None
  | (n, s) :: d' => if decide (n = col) then Some s else lookup_col col d'
  end.

(** An existing column is replaced where it stands, a new one is added
    at the end. *)
Fixpoint assign_col (col : pystr) (s : Series) (d : list (pystr * Series))
  : list (pystr * Series) :=
  match d with
  | [] => [(col, s)]
  | (n, s0) :: d' =>
      if decide (n = col) then (n, s) :: d' else (n, s0) :: assign_col col s d'
  end.

Definition getitem (df : DataFrame) (col : pystr) : option Series :=
  lookup_col col (data df).

Definition setitem (df : DataFrame) (col : pystr) (s : Series) : DataFrame :=
  {| index := index df; data := assign_col col s (data df) |}.

(** *** [DataFrame.drop_duplicates]

    [duplicated] scans the rows in order and marks a row when its cells
    have been seen in an earlier row; [drop_duplicates] keeps the rows that
    are not marked, by boolean indexing of the labels and of every
    column. This is the method on a frame with a column at least, as
    [read_csv] returns it; pandas returns a frame without columns as it
    is. *)

Fixpoint dup_scan (seen : list (list cell)) (rs : list (list cell)) : list bool :=
  match rs with
  | [] => []
  | r :: rs' =>
      if bool_decide (r ∈ seen) then true :: dup_scan seen rs'
      else false :: dup_scan (r :: seen) rs'
  end.

Definition duplicated (df : DataFrame) : list bool := dup_scan [] (rows df).

(** Boolean indexing: the entries of [l] whose mask bit is set. *)
Fixpoint select {A} (mask : list bool) (l : list A) : list A :=
  match mask, l with
  | b :: mask', x :: l' => if b then x :: select mask' l' else select mask' l'
  | _, _ => []
  end.

Definition select_series (mask : list bool) (s : Series) : Series :=
  match s with
  | Numeric v => Numeric (select mask v)
  | Object v => Object (select mask v)
  end.

Definition loc_mask (df : DataFrame) (mask : list bool) : DataFrame :=
  {| index := select mask (index df);
     data := prod_map id (select_series mask) <$> data df |}.

Definition drop_duplicates (df : DataFrame) : DataFrame :=
  loc_mask df (negb <$> duplicated df).

(** *** [pd.to_numeric(s, errors='coerce')]

    A column of a numeric dtype is returned as it is. In an [object] column
    every string is read as a number, and a string that is not a number
    becomes the missing marker; numbers and missing markers are kept. *)

Definition coerce_cell (c : cell) : option number :=
  match c with
  | Str s => floatify s
  | Num x => Some x
  | NaN => None
  end.

Definition to_numeric (s : Series) : Series :=
  match s with
  | Numeric v => Numeric v
  | Object v => Numeric (coerce_cell <$> v)
  end.

(** *** The [.str] accessor *)

Definition is_str (c : cell) : bool := match c with Str _ => true | _ => false end.

Definition is_num (c : cell) : bool := match c with Num _ => true | _ => false end.

(** [Series.str] raises [AttributeError] ("Can only use .str accessor with
    string values") on a column of a numeric dtype, and on an [object]
    column whose cells, the missing ones apart, are all numbers. It accepts
    the [object] columns of strings, the empty and the all-missing ones, and
    the mixed ones. *)
Definition str_accessor (s : Series) : result (list cell) :=
  match s with
  | Numeric _ => Raise AttributeError
  | Object v =>
      if existsb is_num v && negb (existsb is_str v)
      then Raise AttributeError else Ok v
  end.

(** The element-wise string methods: a cell that is not a string becomes
    the missing marker. *)
Definition map_str (f : pystr → pystr) (v : list cell) : Series :=
  Object ((λ c, match c with Str s => Str (f s) | _ => NaN end) <$> v).

(** ** [clean_data] *)

Definition ANO : pystr := [65; 209; 79].
Definition PRECIO : pystr := lit "PRECIO".
Definition MEDIA : pystr := lit "MEDIA".
Definition PUNTUACION : pystr := lit "PUNTUACI" ++ [211; 78].

Definition TITULO : pystr := [84; 205] ++ lit "TULO".
Definition GENERO : pystr := [71; 201] ++ lit "NERO".
Definition PLATAFORMA : pystr := lit "PLATAFORMA".
Definition DESARROLLADOR : pystr := lit "DESARROLLADOR".

(** ['AÑO', 'PRECIO', 'MEDIA', 'PUNTUACIÓN'] *)
Definition numeric_cols : list pystr := [ANO; PRECIO; MEDIA; PUNTUACION].

(** ['TÍTULO', 'GÉNERO', 'PLATAFORMA', 'DESARROLLADOR'] *)
Definition text_cols : list pystr := [TITULO; GENERO; PLATAFORMA; DESARROLLADOR].

(** One iteration of the first loop:
    [if col in df.columns: df[col] = pd.to_numeric(df[col], errors='coerce')]. *)
Definition coerce_col (df : DataFrame) (col : pystr) : DataFrame :=
  match getitem df col with
  | Some s => setitem df col (to_numeric s)
  | None => df
  end.

Definition coerce_numeric (df : DataFrame) : DataFrame :=
  foldl coerce_col df numeric_cols.

Fixpoint for_each (f : DataFrame → pystr → result DataFrame)
    (df : DataFrame) (cols : list pystr) : result DataFrame :=
  match cols with
  | [] => mret df
  | col :: cols' => df' ← f df col; for_each f df' cols'
  end.

Section Pipeline.
Context {U : Unicode}.

(** [s.str.strip().str.upper()] *)
Definition strip_upper (s : Series) : result Series :=
  v ← str_accessor s;
  w ← str_accessor (map_str str_strip v);
  mret (map_str str_upper w).

(** One iteration of the second loop:
    [if col in df.columns: df[col] = df[col].str.strip().str.upper()]. *)
Definition normalize_col (df : DataFrame) (col : pystr) : result DataFrame :=
  match getitem df col with
  | Some s => s' ← strip_upper s; mret (setitem df col s')
  | None => mret df
  end.

Definition normalize_text (df : DataFrame) : result DataFrame :=
  for_each normalize_col df text_cols.

Definition clean_data (df : DataFrame) : result DataFrame :=
  let df := drop_duplicates df in
  let df := coerce_numeric df in
  normalize_text df.

End Pipeline.

(** ** [clean_data] on the object store

    Python variables hold references to objects. A store maps the
    references in use to frames. In this second embedding every statement
    of [clean_data] is a command on the store, so that what the function
    writes, and where, is explicit. *)

Definition ref := nat.

Abbreviation Cmd := (ST (gmap ref DataFrame)).

(** A new object. *)
Definition alloc (df : DataFrame) : Cmd ref := λ σ,
  let r := fresh (dom σ) in (Ok r, <[r := df]> σ).

Definition load (r : ref) : Cmd DataFrame := λ σ,
  match σ !! r with
  | Some df => (Ok df, σ)
  | None => (Raise InvalidRef, σ)
  end.

(** In-place update of the object behind [r]. *)
Definition update (r : ref) (f : DataFrame → DataFrame) : Cmd () := λ σ,
  match σ !! r with
  | Some df => (Ok (), <[r := f df]> σ)
  | None => (Raise InvalidRef, σ)
  end.

(** [df.drop_duplicates()] returns a new frame. *)
Definition df_drop_duplicates (df : ref) : Cmd ref :=
  d ← load df; alloc (drop_duplicates d).

(** [col in df.columns] *)
Definition df_contains (df : ref) (col : pystr) : Cmd bool :=
  d ← load df; mret (bool_decide (col ∈ columns d)).

(** [df[col]] *)
Definition df_getitem (df : ref) (col : pystr) : Cmd Series :=
  d ← load df;
  match getitem d col with
  | Some s => mret s
  | None => raise KeyError
  end.

(** [df[col] = s] writes into the frame that [df] refers to. *)
Definition df_setitem (df : ref) (col : pystr) (s : Series) : Cmd () :=
  update df (λ d, setitem d col s).

Fixpoint for_cols (cols : list pystr) (body : pystr → Cmd ()) : Cmd () :=
  match cols with
  | [] => mret ()
  | col :: cols' => _ ← body col; for_cols cols' body
  end.

Section Store.
Context {U : Unicode}.

Definition clean_data_cmd (df : ref) : Cmd ref :=
  df ← df_drop_duplicates df;
  _ ← for_cols numeric_cols (λ col,
        b ← df_contains df col;
        if b : bool then
          s ← df_getitem df col;
          df_setitem df col (to_numeric s)
        else mret ());
  _ ← for_cols text_cols (λ col,
        b ← df_contains df col;
        if b : bool then
          s ← df_getitem df col;
          s' ← lift (strip_upper s);
          df_setitem df col s'
        else mret ());
  mret df.

End Store.

(** ** The loaders *)

Definition comma : codepoint := 44.
Definition semicolon : codepoint := 59.

(** ["," if primera_linea.count(",") > primera_linea.count(";") else ";"] *)
Definition choose_delimiter (primera_linea : pystr) : codepoint :=
  if (count_char semicolon primera_linea <? count_char comma primera_linea)%nat
  then comma else semicolon.

(** [StringIO.readline]: the text up to and including the first line
    feed; no other character ends a line. *)
Fixpoint readline (s : pystr) : pystr :=
  match s with
  | [] => []
  | c :: s' => if c =? 10 then [10] else c :: readline s'
  end.

(** [readline] of a file opened in text mode: a line feed, a carriage
    return, or the two in a row end a line, and come out as one line
    feed. *)
Fixpoint readline_universal (s : pystr) : pystr :=
  match s with
  | [] => []
  | c :: s' => if (c =? 10) || (c =? 13) then [10] else c :: readline_universal s'
  end.

(** A file opened in text mode is read in chunks of 8192 bytes
    ([TextIOWrapper._CHUNK_SIZE]). *)
Definition chunk_size : nat := 8192.

(** The chunks that the successive reads of a file return, the last one
    being the only one that may be shorter. *)
Fixpoint read_chunks (fuel : nat) (content : list byte) : list (list byte) :=
  match fuel, content with
  | S fuel', _ :: _ =>
      take chunk_size content :: read_chunks fuel' (drop chunk_size content)
  | _, _ => []
  end.

(** While the input has not ended, the newline decoder keeps back a
    carriage return that ends the decoded text: the next chunk tells
    whether a line feed follows it. *)
Definition hold_cr (text : pystr) : pystr :=
  match reverse text with
  | 13 :: r => reverse r
  | _ => text
  end.

Definition has_line_end (text : pystr) : bool :=
  existsb (λ c, (c =? 10) || (c =? 13)) text.

(** [raw.decode('latin1')]: one code point per byte; it never fails. *)
Definition decode_latin1 (raw : list byte) : pystr := Byte.to_N <$> raw.

(** What the loaders take from their environment: the guess of the
    [chardet] library, the codecs of Python, the encoding of the locale,
    the file system and the CSV parser of pandas.

    A codec comes in two forms. [codec_decode] is [bytes.decode]: it
    decodes a whole buffer. [incremental_decode] is the incremental
    decoder that a file opened in text mode uses: it gives the text that
    the decoder has returned in all once the given bytes have been fed to
    it, [final] telling whether the input has ended with them. While the
    input has not ended, bytes that begin a character are kept back and
    are no error. *)
Class Platform := {
  chardet_detect : list byte → option string;
  codec_decode : string → list byte → result pystr;
  incremental_decode : string → list byte → bool → result pystr;
  locale_encoding : string;
  read_binary : string → result (list byte);
  read_csv : pystr → codepoint → result DataFrame
}.

(** What a run of the upload loader does that can be observed: the
    decoding attempts, the calls of the CSV parser and the messages shown
    with [st.error]. *)
Inductive event :=
  | EvDecode (encoding : option string)
  | EvReadCsv (text : pystr) (delimiter : codepoint)
  | EvError (cause : exn).

Abbreviation IO := (ST (list event)).

Definition emit (ev : event) : IO () := λ log, (Ok (), log ++ [ev]).

Definition latin1 : string := "latin1".

Section Loaders.
Context {P : Platform}.

(** [raw.decode(encoding)]: a [TypeError] when the encoding is [None]. *)
Definition bytes_decode (encoding : option string) (raw : list byte) : result pystr :=
  match encoding with
  | Some name => codec_decode name raw
  | None => Raise TypeError
  end.

(** [f.readline()] on a file opened with [open(file_path, 'r',
    encoding=encoding)]: chunks are read and decoded, one after the other,
    until the text decoded so far shows the end of a line or the file has
    ended; what lies behind the last chunk read is never decoded. [fed]
    holds the bytes of the chunks read before. *)
Fixpoint readline_chunks (encoding : string) (fed : list byte)
    (chunks : list (list byte)) : result pystr :=
  match chunks with
  | [] =>
      text ← incremental_decode encoding fed true;
      mret (readline_universal text)
  | chunk :: chunks' =>
      text ← incremental_decode encoding (fed ++ chunk) false;
      let seen := hold_cr text in
      if has_line_end seen then mret (readline_universal seen)
      else readline_chunks encoding (fed ++ chunk) chunks'
  end.

Definition text_readline (encoding : string) (content : list byte) : result pystr :=
  readline_chunks encoding [] (read_chunks (length content) content).

Definition detect_file_properties (file_path : string)
  : result (option string * codepoint) :=
  content ← read_binary file_path;
  let encoding := chardet_detect (take 10000 content) in
  primera_linea ← text_readline (default locale_encoding encoding) content;
  let delimitador := choose_delimiter primera_linea in
  mret (encoding, delimitador).

(** The four statements that both branches of the loader share: wrap the
    text, read its first line, choose the delimiter, rewind and parse. *)
Definition parse (string_data : pystr) : IO DataFrame :=
  let primera_linea := readline string_data in
  let delimitador := choose_delimiter primera_linea in
  _ ← emit (EvReadCsv string_data delimitador);
  lift (read_csv string_data delimitador).

(** [st.error(f"No se pudo decodificar el archivo: {e}")] *)
Definition st_error (e : exn) : IO () := emit (EvError e).

Definition load_uploaded_file (raw_data : list byte) : IO (option DataFrame) :=
  let encoding := chardet_detect raw_data in
  try_except
    (_ ← emit (EvDecode encoding);
     string_data ← lift (bytes_decode encoding raw_data);
     df ← parse string_data;
     mret (Some df))
    (λ e, bool_decide (e = UnicodeDecodeError))
    (λ _,
       try_except
         (_ ← emit (EvDecode (Some latin1));
          let string_data := decode_latin1 raw_data in
          df ← parse string_data;
          mret (Some df))
         (λ _, true)
         (λ e, _ ← st_error e; mret None)).

(** The first attempt of the upload loader and its fallback, without the
    log: decoding, then parsing with the delimiter chosen from the first
    line. *)
Definition first_attempt (raw : list byte) : result DataFrame :=
  text ← bytes_decode (chardet_detect raw) raw;
  read_csv text (choose_delimiter (readline text)).

Definition fallback_attempt (raw : list byte) : result DataFrame :=
  read_csv (decode_latin1 raw) (choose_delimiter (readline (decode_latin1 raw))).

End Loaders.

(** The decoding attempts and the error messages of a log. *)
Definition decodes (log : list event) : list (option string) :=
  omap (λ ev, match ev with EvDecode enc => Some enc | _ => None end) log.

Definition errors (log : list event) : list exn :=
  omap (λ ev, match ev with EvError e => Some e | _ => None end) log.

(** ** Notions used in the properties *)

(** Neither end of the string is a whitespace character. *)
Definition edge_ok {U : Unicode} (s : pystr) : Prop :=
  (∀ c, head s = Some c → isspace c = false) ∧
  (∀ c, last s = Some c → isspace c = false).

(** The rows that the duplicate scan does not mark. *)
Definition first_occurrences (seen rs : list (list cell)) : list (list cell) :=
  select (negb <$> dup_scan seen rs) rs.

(** Applying a function to every column, by name. *)
Definition transform (F : pystr → Series → Series) (d : list (pystr * Series))
  : list (pystr * Series) :=
  (λ c, (c.1, F c.1 c.2)) <$> d.

(** The columns on which [.str] does not raise. *)
Definition str_ok (s : Series) : bool :=
  match s with
  | Numeric _ => false
  | Object v => negb (existsb is_num v && negb (existsb is_str v))
  end.

Definition text_ready (d : list (pystr * Series)) (cols : list pystr) : bool :=
  forallb (λ col, match lookup_col col d with
                  | Some s => str_ok s
                  | None => true
                  end) cols.

Section Cleaning.
Context {U : Unicode}.

Definition normalize_cell (c : cell) : cell :=
  match c with
  | Str s => Str (str_upper (str_strip s))
  | _ => NaN
  end.

Definition normalize_series (s : Series) : Series :=
  Object (normalize_cell <$> values s).

(** What [clean_data] does to the column named [n], and to its cells. *)
Definition clean_series (n : pystr) (s : Series) : Series :=
  if decide (n ∈ numeric_cols) then to_numeric s
  else if decide (n ∈ text_cols) then normalize_series s
  else s.

Definition clean_cell (n : pystr) (c : cell) : cell :=
  if decide (n ∈ numeric_cols) then num_cell (coerce_cell c)
  else if decide (n ∈ text_cols) then normalize_cell c
  else c.

End Cleaning.

(** ** Example tables *)

(** Rows [A; A; B] over two columns that are not designated. *)
Definition tbl_aab : DataFrame :=
  {| index := [0; 1; 2]%Z;
     data := [ (lit "ID", Object [Str (lit "a1"); Str (lit "a1"); Str (lit "b2")]);
               (lit "NOTA", Numeric [Some (Finite 7); Some (Finite 7); None]) ] |}.

(** The first two rows differ by case and blanks in a text column and by
    the spelling of a number; the last row keeps the year column of dtype
    [object]. *)
Definition tbl_spelling : DataFrame :=
  {| index := [0; 1; 2]%Z;
     data := [ (TITULO, Object [Str (lit " zelda "); Str (lit "ZELDA"); Str (lit "Mario")]);
               (ANO, Object [Str (lit "2020"); Str (lit "2020.0"); Str (lit "s/f")]) ] |}.

Definition tbl_spelling_clean : DataFrame :=
  {| index := [0; 1; 2]%Z;
     data := [ (TITULO, Object [Str (lit "ZELDA"); Str (lit "ZELDA"); Str (lit "MARIO")]);
               (ANO, Numeric [Some (Finite 2020); Some (Finite 2020); None]) ] |}.

(** Two strings that are not numbers, in a numeric column. *)
Definition tbl_unparsable : DataFrame :=
  {| index := [0; 1]%Z;
     data := [ (ANO, Object [Str (lit "abc"); Str (lit "xyz")]) ] |}.

Definition tbl_unparsable_clean : DataFrame :=
  {| index := [0; 1]%Z; data := [ (ANO, Numeric [None; None]) ] |}.

Definition tbl_unparsable_clean2 : DataFrame :=
  {| index := [0]%Z; data := [ (ANO, Numeric [None]) ] |}.

Definition tbl_years : DataFrame :=
  {| index := [0; 1; 2]%Z;
     data := [ (ANO, Object [Str (lit "2020"); Str (lit "abc"); Str []]) ] |}.

Definition tbl_titles : DataFrame :=
  {| index := [0; 1; 2]%Z;
     data := [ (TITULO, Object [Str (lit " zelda "); Str (lit "Mario"); NaN]);
               (lit "notas", Object [Str (lit " sin tocar "); NaN; Str (lit "x")]) ] |}.

Definition tbl_titles_clean : DataFrame :=
  {| index := [0; 1; 2]%Z;
     data := [ (TITULO, Object [Str (lit "ZELDA"); Str (lit "MARIO"); NaN]);
               (lit "notas", Object [Str (lit " sin tocar "); NaN; Str (lit "x")]) ] |}.

(** A frame as [read_csv] builds it from a file whose GÉNERO column is
    empty: that column is of dtype float64 and holds missing markers
    only. *)
Definition tbl_empty_genre : DataFrame :=
  {| index := [0; 1]%Z;
     data := [ (TITULO, Object [Str (lit "Zelda"); Str (lit "Mario")]);
               (GENERO, Numeric [None; None]) ] |}.

(** The bytes of the line [a,b;c] and of a line feed. *)
Definition header_bytes : list byte := [x61; x2c; x62; x3b; x63; x0a].

(** The bytes of [n;ñ] in Latin-1, which are not valid UTF-8. *)
Definition latin1_bytes : list byte := [x6e; x3b; xf1; x0a].

(** A codec that accepts ASCII bytes only. It has no character of more
    than one byte, so that its incremental decoder keeps nothing back. *)
Definition ascii_decode (encoding : string) (raw : list byte) : result pystr :=
  if forallb (λ b, Byte.to_N b <? 128) raw
  then Ok (Byte.to_N <$> raw) else Raise UnicodeDecodeError.

(** A platform for the examples: UTF-8 is guessed for every buffer, the
    UTF-8 codec accepts ASCII bytes only, and the parser returns a frame
    without columns. *)
Definition toy_platform : Platform :=
  {| chardet_detect := λ _, Some "utf-8"%string;
     codec_decode := ascii_decode;
     incremental_decode := λ _ raw _, ascii_decode "utf-8" raw;
     locale_encoding := "utf-8";
     read_binary := λ _, Ok header_bytes;
     read_csv := λ _ _, Ok {| index := []; data := [] |} |}.

(** The same platform with a parser that rejects every text. *)
Definition rejecting_platform : Platform :=
  {| chardet_detect := chardet_detect (Platform := toy_platform);
     codec_decode := codec_decode (Platform := toy_platform);
     incremental_decode := incremental_decode (Platform := toy_platform);
     locale_encoding := "utf-8";
     read_binary := λ _, Ok header_bytes;
     read_csv := λ _ _, Raise (OtherError 1) |}.

Local Close Scope N_scope.

(** ** The script around the loaders and the pipeline *)

(** *** Loading and cleaning (the top of the script)

    What the user sees while the data is loaded: the events of the upload
    loader, the [st.success] banner, and the [st.error] message of the
    branch that reads the default file. *)

Inductive notice :=
  | FromLoader (ev : event)
  | Success
  | DefaultError (cause : exn).

(** The state of the script after the loading block: [st.stop()] has
    ended the run, or the variable [df] is bound (possibly to [None]). *)
Inductive loaded :=
  | Stopped
  | Bound (df : option DataFrame).

Definition archivo : string := "base_productos.csv".

Definition notify (n : notice) : ST (list notice) () := λ log, (Ok (), log ++ [n]).

(** A call of the upload loader: its events are appended to the log. *)
Definition run_loader {A} (m : IO A) : ST (list notice) A := λ log,
  ((m []).1, log ++ (FromLoader <$> (m []).2)).

Section Script.
Context {P : Platform} {U : Unicode}.

(** [pd.read_csv(archivo, encoding=encoding, delimiter=delimitador,
    on_bad_lines='warn')]: the file is read, decoded (as UTF-8 when the
    encoding is [None]) and parsed. *)
Definition read_csv_file (file_path : string) (encoding : option string)
    (delimitador : codepoint) : result DataFrame :=
  content ← read_binary file_path;
  text ← codec_decode (default "utf-8"%string encoding) content;
  read_csv text delimitador.

Definition load_data (uploaded_file : option (list byte)) : ST (list notice) loaded :=
  match uploaded_file with
  | Some raw_data =>
      df ← run_loader (load_uploaded_file raw_data);
      _ ← (if df is Some _ then notify Success else mret ());
      mret (Bound df)
  | None =>
      try_except
        (r ← lift (detect_file_properties archivo);
         df ← lift (read_csv_file archivo r.1 r.2);
         _ ← notify Success;
         mret (Bound (Some df)))
        (λ _, true)
        (λ e, _ ← notify (DefaultError e); mret Stopped)
  end.

(** [df = clean_data(df)], where [df] may be [None]: the first statement
    of [clean_data] is then an attribute access on [None]. *)
Definition clean_loaded (df : option DataFrame) : result DataFrame :=
  match df with
  | Some d => clean_data d
  | None => Raise AttributeError
  end.

(** The script down to the cleaned table; [None] when it was stopped. *)
Definition main_load (uploaded_file : option (list byte))
  : ST (list notice) (option DataFrame) :=
  l ← load_data uploaded_file;
  match l with
  | Stopped => mret None
  | Bound df => d ← lift (clean_loaded df); mret (Some d)
  end.

End Script.

(** The error messages of the default branch in a log, and the events of
    the upload loader in it. *)
Definition default_errors (log : list notice) : list exn :=
  omap (λ n, match n with DefaultError e => Some e | _ => None end) log.

Definition loader_events (log : list notice) : list event :=
  omap (λ n, match n with FromLoader ev => Some ev | _ => None end) log.

(** *** The summary metrics

    [df.shape[0]], [df.shape[1]] and [df.isnull().sum().sum()]. *)

Definition shape (df : DataFrame) : nat * nat :=
  (length (index df), length (data df)).

Definition isnull (c : cell) : bool :=
  match c with NaN => true | _ => false end.

Definition isnull_count (df : DataFrame) : nat :=
  sum_list ((λ c, length (filter (λ x, isnull x = true) (values c.2))) <$> data df).

(** *** The year column: [min], [max] and [int]

    The script reads the year column after [clean_data], when it is a
    float64 column; the reductions are defined on the array of such a
    column. *)

(** [x <= y] on float64 values. *)
Definition number_leb (x y : number) : bool :=
  match x, y with
  | Inf true, _ => true
  | _, Inf false => true
  | Finite p, Finite q => Qle_bool p q
  | _, _ => false
  end.

Definition number_min (x y : number) : number := if number_leb x y then x else y.

Definition number_max (x y : number) : number := if number_leb x y then y else x.

(** A reduction that skips the missing markers; [None] (that is, NaN)
    when there is no number at all. *)
Fixpoint reduce (f : number → number → number) (v : list (option number))
  : option number :=
  match v with
  | [] => None
  | None :: v' => reduce f v'
  | Some x :: v' =>
      match reduce f v' with
      | Some y => Some (f x y)
      | None => Some x
      end
  end.

(** [s.min()] and [s.max()] *)
Definition series_min (v : list (option number)) : option number := reduce number_min v.

Definition series_max (v : list (option number)) : option number := reduce number_max v.

Inductive py_error :=
  | ValueError
  | OverflowError.

(** [int(x)] of a float: NaN gives [ValueError], an infinity gives
    [OverflowError], and a number is truncated towards zero. *)
Definition py_int (x : option number) : py_error + Z :=
  match x with
  | None => inl ValueError
  | Some (Inf _) => inl OverflowError
  | Some (Finite q) => inr (Z.quot (Qnum q) (Z.pos (Qden q)))
  end.

(** [int(df['AÑO'].max())], the sidebar metric. *)
Definition ano_mas_reciente (v : list (option number)) : py_error + Z :=
  py_int (series_max v).

(** [año_min, año_max = int(df['AÑO'].min()), int(df['AÑO'].max())] *)
Definition year_bounds (v : list (option number)) : py_error + (Z * Z) :=
  match py_int (series_min v) with
  | inl e => inl e
  | inr ano_min =>
      match py_int (series_max v) with
      | inl e => inl e
      | inr ano_max => inr (ano_min, ano_max)
      end
  end.

(** *** The filters of the exploration tab *)

(** The dictionary [filter_params]: a key is present when its widget was
    drawn. *)
Record FilterParams := {
  genero : option cell;
  plataforma : option cell;
  rango_anos : option (Z * Z)
}.

Definition Todos : cell := Str (lit "Todos").
Definition Todas : cell := Str (lit "Todas").

(** [s == choice], cell by cell; a missing cell equals nothing. *)
Definition eq_mask (choice : cell) (s : Series) : list bool :=
  (λ c, negb (isnull c) && bool_decide (c = choice)) <$> values s.

(** [s >= lo] and [s <= hi] on a float64 column; a comparison with NaN on
    either side is false. *)
Definition ge_mask (lo : option number) (v : list (option number)) : list bool :=
  (λ o, match o, lo with Some x, Some l => number_leb l x | _, _ => false end) <$> v.

Definition le_mask (hi : option number) (v : list (option number)) : list bool :=
  (λ o, match o, hi with Some x, Some h => number_leb x h | _, _ => false end) <$> v.

(** The array of a float64 column. The year column is one when the
    filters run, because [clean_data] has run before; a year column of
    dtype [object] is outside this model and is given [TypeError]. *)
Definition float_values (s : Series) : result (list (option number)) :=
  match s with
  | Numeric v => Ok v
  | Object _ => Raise TypeError
  end.

Definition of_int (z : Z) : number := Finite (inject_Z z).

(** [if col in df.columns and filter_params.get(key, sentinel) != sentinel:
       df_filtrado = df_filtrado[df_filtrado[col] == filter_params[key]]] *)
Definition filter_eq (df df_filtrado : DataFrame) (col : pystr)
    (choice : option cell) (sentinel : cell) : result DataFrame :=
  if bool_decide (col ∈ columns df) && negb (bool_decide (default sentinel choice = sentinel))
  then
    match getitem df_filtrado col with
    | Some s => mret (loc_mask df_filtrado (eq_mask (default sentinel choice) s))
    | None => Raise KeyError
    end
  else mret df_filtrado.

(** [if 'AÑO' in df.columns:
       rango = filter_params.get('rango_años', (df['AÑO'].min(), df['AÑO'].max()))
       df_filtrado = df_filtrado[(df_filtrado['AÑO'] >= rango[0])
                                 & (df_filtrado['AÑO'] <= rango[1])]] *)
Definition filter_year (df df_filtrado : DataFrame) (choice : option (Z * Z))
  : result DataFrame :=
  match getitem df ANO with
  | None => mret df_filtrado
  | Some s0 =>
      v0 ← float_values s0;
      let rango :=
        default (series_min v0, series_max v0)
          ((λ r, (Some (of_int r.1), Some (of_int r.2))) <$> choice) in
      match getitem df_filtrado ANO with
      | Some s =>
          v ← float_values s;
          mret (loc_mask df_filtrado
                  (zip_with andb (ge_mask rango.1 v) (le_mask rango.2 v)))
      | None => Raise KeyError
      end
  end.

(** [df_filtrado = df.copy()] and the three filters, in the order of the
    script. *)
Definition apply_filters (df : DataFrame) (filter_params : FilterParams)
  : result DataFrame :=
  let df_filtrado := df in
  df_filtrado ← filter_eq df df_filtrado GENERO (genero filter_params) Todos;
  df_filtrado ← filter_eq df df_filtrado PLATAFORMA (plataforma filter_params) Todas;
  filter_year df df_filtrado (rango_anos filter_params).

(** *** Notions used in the properties of the script *)

(** The year column is absent or of a float64 dtype. *)
Definition year_ready (df : DataFrame) : Prop :=
  match getitem df ANO with
  | Some (Object _) => False
  | _ => True
  end.

Global Instance year_ready_dec df : Decision (year_ready df).
Proof. unfold year_ready. destruct (getitem df ANO) as [[]|]; apply _. Defined.

(** The mask of one equality filter on the whole table: all rows when the
    filter is not active. *)
Definition eq_filter_mask (df : DataFrame) (col : pystr) (choice : option cell)
    (sentinel : cell) : list bool :=
  match getitem df col with
  | Some s =>
      if bool_decide (default sentinel choice = sentinel)
      then replicate (length (index df)) true
      else eq_mask (default sentinel choice) s
  | None => replicate (length (index df)) true
  end.

Definition year_filter_mask (df : DataFrame) (choice : option (Z * Z)) : list bool :=
  match getitem df ANO with
  | Some (Numeric v) =>
      let rango :=
        default (series_min v, series_max v)
          ((λ r, (Some (of_int r.1), Some (of_int r.2))) <$> choice) in
      zip_with andb (ge_mask rango.1 v) (le_mask rango.2 v)
  | _ => replicate (length (index df)) true
  end.

(** The rows that pass all three filters. *)
Definition filter_mask (df : DataFrame) (p : FilterParams) : list bool :=
  zip_with andb
    (zip_with andb (eq_filter_mask df GENERO (genero p) Todos)
                   (eq_filter_mask df PLATAFORMA (plataforma p) Todas))
    (year_filter_mask df (rango_anos p)).

(** ** The CSV export and its reading back

    The export tab offers [df.to_csv(index=False).encode('utf-8')] for
    download. Neither the writer nor a reader of the exported text is
    code of this program: both are modelled here from the documentation
    of [DataFrame.to_csv] and [read_csv] of pandas and of the [csv] module
    of Python, with their default settings. Encoding the text as UTF-8
    and decoding it again gives the text back; the export and the reader
    are modelled on the text. *)

Local Open Scope N_scope.

(** *** Printing a number

    A float is printed as [repr] prints it: the shortest decimal form that
    reads back as the same number, in positional notation, or in
    scientific notation when the absolute value is [1e16] or more, or less
    than [1e-4]. As the numbers are modelled by their exact values, the
    shortest such form is the exact decimal expansion. An int64 column is
    printed without [.0]; the tables of this model do not tell int64 from
    float64, and every number is printed as a float. *)

(** The decimal digits of a number, the least significant first. *)
Fixpoint digits_le (fuel : nat) (n : N) : list N :=
  match fuel with
  | O => []
  | S fuel' => n mod 10 :: (if n <? 10 then [] else digits_le fuel' (n / 10))
  end.

(** The decimal digits of a number, the most significant first. *)
Definition digits (n : N) : list N :=
  reverse (digits_le (S (N.to_nat (N.size n))) n).

Definition chars (ds : list N) : pystr := (λ d, 48 + d) <$> ds.

Definition zeros (n : nat) : list N := replicate n 0.

(** The least [k' >= k] for which [10 ^ k'] is a multiple of [d]. *)
Fixpoint find_scale (fuel : nat) (k : N) (d : N) : option N :=
  match fuel with
  | O => None
  | S fuel' => if (10 ^ k) mod d =? 0 then Some k else find_scale fuel' (k + 1) d
  end.

(** [m * 10 ^ e] without the zeros that end [m]. *)
Fixpoint strip_zeros (fuel : nat) (m : N) (e : Z) : N * Z :=
  match fuel with
  | O => (m, e)
  | S fuel' =>
      if (m =? 0) || negb (m mod 10 =? 0) then (m, e)
      else strip_zeros fuel' (m / 10) (e + 1)%Z
  end.

(** The fraction [n / d] as [m * 10 ^ e], where [m] does not end in a
    zero; [None] when the fraction has no finite decimal expansion. *)
Definition decimal_of (n : N) (d : positive) : option (N * Z) :=
  k ← find_scale (S (N.to_nat (N.size (Npos d)))) 0 (Npos d);
  let m := n * (10 ^ k / Npos d) in
  Some (strip_zeros (N.to_nat (N.size m)) m (- Z.of_N k)%Z).

(** The exponent of the scientific notation: a sign and two digits at
    least. *)
Definition exponent_str (e : Z) : pystr :=
  (if (e <? 0)%Z then 45 else 43) ::
  chars (let ds := digits (Z.abs_N e) in
         if (length ds <? 2)%nat then 0 :: ds else ds).

(** The digits [m] with the decimal point [e] places behind the last
    one. *)
Definition layout (m : N) (e : Z) : pystr :=
  let ds := digits m in
  let decpt := (Z.of_nat (length ds) + e)%Z in
  if (decpt <=? -4)%Z || (16 <? decpt)%Z then
    chars (take 1 ds) ++
    match drop 1 ds with
    | [] => []
    | ds' => 46 :: chars ds'
    end ++ 101 :: exponent_str (decpt - 1)
  else if (decpt <=? 0)%Z then
    chars [0] ++ 46 :: chars (zeros (Z.to_nat (- decpt)) ++ ds)
  else if (decpt <? Z.of_nat (length ds))%Z then
    chars (take (Z.to_nat decpt) ds) ++ 46 :: chars (drop (Z.to_nat decpt) ds)
  else
    chars (ds ++ zeros (Z.to_nat e)) ++ 46 :: chars [0].

(** [repr(x)] of a float [x]. A value without a finite decimal expansion
    is the value of no float. *)
Definition float_str (x : number) : pystr :=
  match x with
  | Inf negative => (if negative then [45] else []) ++ lit "inf"
  | Finite q =>
      match decimal_of (Z.abs_N (Qnum q)) (Qden q) with
      | Some (m, e) =>
          (if (Qnum q <? 0)%Z then [45] else []) ++
          (if m =? 0 then lit "0.0" else layout m e)
      | None => lit "nan"
      end
  end.

(** The numbers that a float column can hold in this model: the
    infinities, and the fractions in lowest terms of which [decimal_of]
    finds the decimal expansion. The value of every float64 has such an
    expansion, and so has every number that is read from a string. *)
Definition printable (x : number) : Prop :=
  match x with
  | Inf _ => True
  | Finite q =>
      Qred q = q ∧ is_Some (decimal_of (Z.abs_N (Qnum q)) (Qden q))
  end.

Global Instance printable_dec x : Decision (printable x).
Proof. destruct x; simpl; apply _. Defined.

(** The notions used to show that a printed number is read back. *)







(** *** [DataFrame.to_csv(index=False)]

    The column names and then the rows are written, one record per line,
    by the [csv] writer of Python with the comma as delimiter, [QUOTE_MINIMAL]
    and quotes doubled: a field is quoted when it holds a comma, a quote, a
    line feed or a carriage return, and a record that consists of one empty
    field is written as a pair of quotes. A missing cell is written as the
    empty field ([na_rep='']). The lines end in [os.linesep]. *)

Definition quote : codepoint := 34.

Definition special (c : codepoint) : bool :=
  (c =? comma) || (c =? quote) || (c =? 10) || (c =? 13).

Definition needs_quotes (f : pystr) : bool := existsb special f.

Definition escape (f : pystr) : pystr :=
  f ≫= (λ c, if c =? quote then [quote; quote] else [c]).

Definition write_field (f : pystr) : pystr :=
  if needs_quotes f then quote :: escape f ++ [quote] else f.

Fixpoint join_fields (fs : list pystr) : pystr :=
  match fs with
  | [] => []
  | [f] => f
  | f :: fs' => f ++ comma :: join_fields fs'
  end.

Definition write_row (linesep : pystr) (fields : list pystr) : pystr :=
  match fields with
  | [ [] ] => [quote; quote]
  | _ => join_fields (write_field <$> fields)
  end ++ linesep.

Definition format_cell (c : cell) : pystr :=
  match c with
  | Str t => t
  | Num x => float_str x
  | NaN => []
  end.

Definition to_csv (linesep : pystr) (df : DataFrame) : pystr :=
  write_row linesep (columns df) ++
  concat (write_row linesep <$> (fmap format_cell <$> rows df)).

(** *** [read_csv] on the exported text

    The tokenizer of pandas, as a machine that reads the text character by
    character: the field and the record it is reading, and the records
    read. The delimiter is the comma, the quote character is the double
    quote, a quote inside a quoted field is written twice; a line feed, a
    carriage return, or the two in a row end a record. Blank lines, and
    lines of spaces and tabs only, are skipped ([skip_blank_lines=True]). *)

Inductive pstate :=
  | StartRecord
  | StartField
  | InField
  | InQuoted
  | QuoteInQuoted
  | AfterCR
  | SkipLine.

Record machine := {
  st : pstate;
  fld : pystr;
  rcd : list pystr;
  out : list (list pystr)
}.

Definition goto (m : machine) (s : pstate) : machine :=
  {| st := s; fld := fld m; rcd := rcd m; out := out m |}.

Definition push (m : machine) (c : codepoint) (s : pstate) : machine :=
  {| st := s; fld := fld m ++ [c]; rcd := rcd m; out := out m |}.

Definition end_field (m : machine) : machine :=
  {| st := StartField; fld := []; rcd := rcd m ++ [fld m]; out := out m |}.

Definition end_record (m : machine) (s : pstate) : machine :=
  {| st := s; fld := []; rcd := []; out := out m ++ [rcd m ++ [fld m]] |}.

Definition is_blank (c : codepoint) : bool := (c =? 32) || (c =? 9).

(** The rest of the line holds spaces and tabs only. *)
Fixpoint blank_line (text : pystr) : bool :=
  match text with
  | [] => true
  | c :: text' =>
      if (c =? 10) || (c =? 13) then true else is_blank c && blank_line text'
  end.

Definition start_field (m : machine) (c : codepoint) : machine :=
  if c =? 10 then end_record m StartRecord
  else if c =? 13 then end_record m AfterCR
  else if c =? quote then goto m InQuoted
  else if c =? comma then end_field m
  else push m c InField.

Definition start_record (m : machine) (c : codepoint) (rest : pystr) : machine :=
  if c =? 10 then goto m StartRecord
  else if c =? 13 then goto m AfterCR
  else if is_blank c && blank_line rest then goto m SkipLine
  else start_field m c.

(** One character [c], with the text [rest] that follows it. *)
Definition step (m : machine) (c : codepoint) (rest : pystr) : machine :=
  match st m with
  | StartRecord => start_record m c rest
  | AfterCR => if c =? 10 then goto m StartRecord else start_record m c rest
  | SkipLine =>
      if c =? 10 then goto m StartRecord
      else if c =? 13 then goto m AfterCR
      else m
  | StartField => start_field m c
  | InField =>
      if c =? 10 then end_record m StartRecord
      else if c =? 13 then end_record m AfterCR
      else if c =? comma then end_field m
      else push m c InField
  | InQuoted => if c =? quote then goto m QuoteInQuoted else push m c InQuoted
  | QuoteInQuoted =>
      if c =? quote then push m c InQuoted
      else if c =? 10 then end_record m StartRecord
      else if c =? 13 then end_record m AfterCR
      else if c =? comma then end_field m
      else push m c InField
  end.

Fixpoint run (m : machine) (text : pystr) : machine :=
  match text with
  | [] => m
  | c :: rest => run (step m c rest) rest
  end.

(** The end of the text ends the record that is being read; inside a
    quoted field it is an error. *)
Definition finish (m : machine) : option (list (list pystr)) :=
  match st m with
  | StartRecord | AfterCR | SkipLine => Some (out m)
  | InQuoted => None
  | StartField | InField | QuoteInQuoted => Some (out m ++ [rcd m ++ [fld m]])
  end.

Definition csv_records (text : pystr) : option (list (list pystr)) :=
  finish (run {| st := StartRecord; fld := []; rcd := []; out := [] |} text).



(** The cells that [read_csv] builds. A column of the words [true] and
    [false] becomes a column of truth values, which no column of the
    tables above holds. *)
Inductive rcell :=
  | RStr (t : pystr)
  | RNum (x : number)
  | RBool (b : bool)
  | RNaN.

Global Instance rcell_eq_dec : EqDecision rcell.
Proof. solve_decision. Defined.

(** The fields that are read as missing ([na_values], with
    [keep_default_na=True]), quoted or not. *)
Definition na_values : list pystr :=
  [ []; lit "#N/A"; lit "#N/A N/A"; lit "#NA"; lit "-1.#IND"; lit "-1.#QNAN";
    lit "-NaN"; lit "-nan"; lit "1.#IND"; lit "1.#QNAN"; lit "<NA>"; lit "N/A";
    lit "NA"; lit "NULL"; lit "NaN"; lit "None"; lit "n/a"; lit "nan";
    lit "null" ].

Definition is_na (f : pystr) : bool := bool_decide (f ∈ na_values).

(** The words [true] and [false], in any case. *)
Definition bool_token (f : pystr) : option bool :=
  let w := ascii_lower <$> f in
  if bool_decide (w = lit "true") then Some true
  else if bool_decide (w = lit "false") then Some false
  else None.

(** The conversion of the fields of one column: numbers when every field
    that is not missing reads as a number, else truth values when every
    such field is a truth value, else strings. *)
Definition infer (fields : list pystr) : list rcell :=
  let present := filter (λ f, is_na f = false) fields in
  if forallb (λ f, bool_decide (is_Some (floatify f))) present then
    (λ f, if is_na f then RNaN
          else match floatify f with Some x => RNum x | None => RNaN end)
      <$> fields
  else if forallb (λ f, bool_decide (is_Some (bool_token f))) present then
    (λ f, if is_na f then RNaN
          else match bool_token f with Some b => RBool b | None => RNaN end)
      <$> fields
  else (λ f, if is_na f then RNaN else RStr f) <$> fields.

(** The columns of the table that [read_csv] returns for a text, without
    their names: the first record is the header, a record with fewer
    fields than the header is filled up with missing cells, and a record
    with more fields is outside this model, like a text without any
    record ([None]). *)
Definition read_back (text : pystr) : option (list (list rcell)) :=
  records ← csv_records text;
  match records with
  | [] => None
  | header :: body =>
      if forallb (λ r, length r <=? length header)%nat body
      then Some ((λ i, infer ((λ r, default [] (r !! i)) <$> body))
                   <$> seq 0 (length header))
      else None
  end.

(** *** The round trip *)







(** A field of spaces and tabs only, which makes a blank line when it is
    written alone. *)
Definition all_blank (f : pystr) : bool :=
  negb (bool_decide (f = [])) && forallb is_blank f.


Definition cell_ok (c : cell) : Prop :=
  match c with
  | Num x => printable x
  | _ => True
  end.

Global Instance cell_ok_dec c : Decision (cell_ok c).
Proof. destruct c; simpl; apply _. Defined.

(** The tables that the theorem on the export is about: the numbers are
    printable, and no line of the export is blank, that is, in a table of
    one column neither the name nor a cell consists of spaces and tabs
    only. *)
Definition exportable (df : DataFrame) : Prop :=
  Forall (λ c, Forall cell_ok (values c.2)) (data df) ∧
  (length (data df) = 1%nat →
   Forall (λ c, all_blank c.1 = false ∧
                Forall (λ v, all_blank (format_cell v) = false) (values c.2))
     (data df)).

Global Instance exportable_dec df : Decision (exportable df).
Proof. unfold exportable. apply _. Defined.

Local Close Scope N_scope.

(** Example tables for the script. *)

(** A cleaned table: the last row has no year. *)
Definition tbl_games : DataFrame :=
  {| index := [0; 1; 2; 3]%Z;
     data := [ (TITULO, Object [Str (lit "ZELDA"); Str (lit "MARIO"); Str (lit "DOOM"); Str (lit "PONG")]);
               (GENERO, Object [Str (lit "AVENTURA"); Str (lit "PLATAFORMAS"); Str (lit "ACCION"); NaN]);
               (ANO, Numeric [Some (Finite 1998); Some (Finite 1996); Some (Finite 1993); None]) ] |}.

Definition tbl_aab_clean : DataFrame :=
  {| index := [0; 2]%Z;
     data := [ (lit "ID", Object [Str (lit "a1"); Str (lit "b2")]);
               (lit "NOTA", Numeric [Some (Finite 7); None]) ] |}.

Definition tbl_years_clean : DataFrame :=
  {| index := [0; 1; 2]%Z;
     data := [ (ANO, Numeric [Some (Finite 2020); None; None]) ] |}.

(** The selections: one genre, any platform, the years 1990 to 2000. *)
Definition sel_aventura : FilterParams :=
  {| genero := Some (Str (lit "AVENTURA"));
     plataforma := None;
     rango_anos := Some (1990, 2000)%Z |}.

(** The selections of a fresh page: the sentinels and the full range. *)
Definition sel_default : FilterParams :=
  {| genero := Some Todos;
     plataforma := None;
     rango_anos := Some (1993, 1998)%Z |}.

(** A table in which a genre and a platform are spelled like the
    sentinels of the select boxes. *)
Definition tbl_todos : DataFrame :=
  {| index := [0; 1]%Z;
     data := [ (GENERO, Object [Str (lit " Todos "); Str (lit "aventura")]);
               (PLATAFORMA, Object [Str (lit "Todas"); Str (lit "switch")]) ] |}.

Definition tbl_todos_clean : DataFrame :=
  {| index := [0; 1]%Z;
     data := [ (GENERO, Object [Str (lit "TODOS"); Str (lit "AVENTURA")]);
               (PLATAFORMA, Object [Str (lit "TODAS"); Str (lit "SWITCH")]) ] |}.

(** A file with the line ends of classic Mac OS: the header
    [TITULO,NOTA], a carriage return, the row [A;B;C;D,1] and a carriage
    return. *)
Definition mac_bytes : list byte :=
  list_byte_of_string "TITULO,NOTA" ++ [x0d] ++
  list_byte_of_string "A;B;C;D,1" ++ [x0d].

Definition mac_text : pystr :=
  lit "TITULO,NOTA" ++ [13%N] ++ lit "A;B;C;D,1" ++ [13%N].

(** A platform on which [chardet] guesses ASCII, and on which the default
    file holds [mac_bytes]. *)
Definition mac_platform : Platform :=
  {| chardet_detect := λ _, Some "ascii"%string;
     codec_decode := ascii_decode;
     incremental_decode := λ encoding raw _, ascii_decode encoding raw;
     locale_encoding := "utf-8";
     read_binary := λ _, Ok mac_bytes;
     read_csv := λ _ _, Ok {| index := []; data := [] |} |}.

(** A file whose first line is [a,b], whose second line is longer than
    one chunk, and whose third line is no ASCII text. *)
Definition long_bytes : list byte :=
  list_byte_of_string "a,b" ++ [x0a] ++ replicate 10100 x78 ++ [x0a; xff; x0a].

Definition long_platform : Platform :=
  {| chardet_detect := λ _, Some "ascii"%string;
     codec_decode := ascii_decode;
     incremental_decode := λ encoding raw _, ascii_decode encoding raw;
     locale_encoding := "utf-8";
     read_binary := λ _, Ok long_bytes;
     read_csv := λ _ _, Ok {| index := []; data := [] |} |}.



(** A cleaned table with a comma, quotes and a line feed in its strings,
    with missing cells, and with prices that are printed in positional
    and in scientific notation. *)
Definition tbl_export : DataFrame :=
  {| index := [0; 2; 5]%Z;
     data := [ (TITULO, Object [Str (lit "ZELDA, THE");
                                Str (lit "SAY " ++ [34%N] ++ lit "HI" ++ [34%N]);
                                NaN]);
               (PRECIO, Numeric [Some (Finite (1999 # 100));
                                 Some (Finite (1 # 100000)); None]);
               (lit "notas", Object [Str (lit "dos" ++ [10%N] ++ lit "renglones");
                                     NaN; Str (lit " 007 ")]) ] |}.

(** A column of the words for the truth values, and a table of one column
    with a cell of blanks. *)
Definition tbl_truth : DataFrame :=
  {| index := [0; 1]%Z;
     data := [ (lit "oferta", Object [Str (lit "TRUE"); Str (lit "false")]) ] |}.

Definition tbl_blank : DataFrame :=
  {| index := [0; 1]%Z;
     data := [ (lit "notas", Object [Str (lit "  "); Str (lit "x")]) ] |}.

(** A platform on which [chardet] recognises no encoding. *)
Definition blind_platform : Platform :=
  {| chardet_detect := λ _, None;
     codec_decode := codec_decode (Platform := toy_platform);
     incremental_decode := incremental_decode (Platform := toy_platform);
     locale_encoding := "utf-8";
     read_binary := λ _, Ok header_bytes;
     read_csv := λ _ _, Ok {| index := []; data := [] |} |}.

(** * Part II: properties *)

(** ** Strings *)

Section PyStrFacts.
Context {U : Unicode}.

Lemma lstrip_head s c : head (lstrip s) = Some c → isspace c = false.
Proof.
  induction s as [|d s IH]; simpl; [done|].
  destruct (isspace d) eqn:Hd; [done|].
  simpl. by intros [= <-].
Qed.

Lemma lstrip_id s : (∀ c, head s = Some c → isspace c = false) → lstrip s = s.
Proof.
  destruct s as [|d s]; simpl; [done|].
  intros H. by rewrite (H d eq_refl).
Qed.

Lemma lstrip_suffix s : lstrip s `suffix_of` s.
Proof.
  induction s as [|d s IH]; simpl; [done|].
  destruct (isspace d); [by apply suffix_cons_r | done].
Qed.

Lemma rstrip_last s c : last (rstrip s) = Some c → isspace c = false.
Proof. unfold rstrip. rewrite last_reverse. apply lstrip_head. Qed.

Lemma rstrip_id s : (∀ c, last s = Some c → isspace c = false) → rstrip s = s.
Proof.
  intros H. unfold rstrip. rewrite lstrip_id, reverse_involutive; [done|].
  intros c. rewrite head_reverse. apply H.
Qed.

Lemma rstrip_prefix s : rstrip s `prefix_of` s.
Proof.
  unfold rstrip. destruct (lstrip_suffix (reverse s)) as [k Hk].
  exists (reverse k).
  rewrite <- reverse_app, <- Hk. by rewrite reverse_involutive.
Qed.

Lemma prefix_head (s t : pystr) c :
  s `prefix_of` t → head s = Some c → head t = Some c.
Proof. intros [k ->]. by destruct s. Qed.

Lemma str_strip_edge_ok s : edge_ok (str_strip s).
Proof.
  unfold str_strip. split; intros c Hc.
  - apply (lstrip_head s). eapply prefix_head; [apply rstrip_prefix | done].
  - by apply (rstrip_last (lstrip s)).
Qed.

Lemma str_strip_id s : edge_ok s → str_strip s = s.
Proof.
  intros [Hh Hl]. unfold str_strip. rewrite (lstrip_id s Hh). by apply rstrip_id.
Qed.

Lemma str_upper_app s t : str_upper (s ++ t) = str_upper s ++ str_upper t.
Proof. unfold str_upper. apply bind_app. Qed.

Context {L : UnicodeLaws U}.

Lemma str_upper_idem s : str_upper (str_upper s) = str_upper s.
Proof.
  induction s as [|c s IH]; [done|].
  change (str_upper (c :: s)) with (toupper_full c ++ str_upper s).
  rewrite str_upper_app, IH. f_equal. apply toupper_idem.
Qed.

Lemma str_upper_edge_ok s : edge_ok s → edge_ok (str_upper s).
Proof.
  intros [Hh Hl]. split; intros d Hd.
  - destruct s as [|c s]; [done|].
    change (str_upper (c :: s)) with (toupper_full c ++ str_upper s) in Hd.
    pose proof (toupper_nonempty c) as Hne.
    destruct (toupper_full c) as [|d' k] eqn:Hc; [done|].
    simpl in Hd. injection Hd as ->.
    apply (toupper_not_space c); [by apply Hh | rewrite Hc; left].
  - destruct s as [|c s _] using rev_ind; [done|].
    rewrite str_upper_app in Hd.
    assert (str_upper [c] = toupper_full c) as Hu
      by (unfold str_upper; simpl; apply app_nil_r).
    rewrite Hu in Hd.
    pose proof (toupper_nonempty c) as Hne.
    destruct (toupper_full c) as [|d' k _] eqn:Hc using rev_ind; [done|].
    rewrite app_assoc, last_snoc in Hd. injection Hd as ->.
    apply (toupper_not_space c).
    + apply Hl. by rewrite last_snoc.
    + rewrite Hc. set_solver.
Qed.

(** The normal form of a text cell is stable under both operations. *)
Lemma normal_form_strip s :
  str_strip (str_upper (str_strip s)) = str_upper (str_strip s).
Proof. apply str_strip_id, str_upper_edge_ok, str_strip_edge_ok. Qed.

Lemma normal_form_fixed s :
  str_strip s = s → str_upper s = s → str_upper (str_strip s) = s.
Proof. by intros -> ->. Qed.
End PyStrFacts.

Local Open Scope N_scope.

Ltac bool_lia :=
  repeat match goal with
  | H : _ |- _ =>
      progress rewrite ?andb_true_iff, ?andb_false_iff, ?orb_true_iff,
        ?orb_false_iff, ?N.leb_le, ?N.leb_gt, ?N.eqb_eq, ?N.eqb_neq in H
  end;
  repeat (progress rewrite ?andb_true_iff, ?andb_false_iff, ?orb_true_iff,
    ?orb_false_iff, ?N.leb_le, ?N.leb_gt, ?N.eqb_eq, ?N.eqb_neq);
  lia.

Lemma ascii_laws : UnicodeLaws ascii_unicode.
Proof.
  split; simpl; unfold ascii_toupper, ascii_isspace.
  - intros c. by destruct (_ && _).
  - intros c d Hc. destruct ((97 <=? c) && (c <=? 122)) eqn:E.
    + intros ->%list_elem_of_singleton. bool_lia.
    + by intros ->%list_elem_of_singleton.
  - intros c. destruct ((97 <=? c) && (c <=? 122)) eqn:E; simpl.
    + replace ((97 <=? c - 32) && (c - 32 <=? 122)) with false; [done|].
      symmetry. bool_lia.
    + by rewrite E.
Qed.

Local Close Scope N_scope.

(** ** Boolean indexing and rows *)

Section Select.
Context {A B : Type}.
Implicit Types (mask : list bool) (l : list A).

Lemma select_fmap (f : A → B) mask l :
  select mask (f <$> l) = f <$> select mask l.
Proof.
  revert l. induction mask as [|b mask IH]; intros [|x l]; simpl; try done.
  destruct b; simpl; by rewrite IH.
Qed.

Lemma select_sublist mask l : select mask l `sublist_of` l.
Proof.
  revert l. induction mask as [|b mask IH]; intros [|x l]; simpl;
    try apply sublist_nil_l.
  destruct b; [by apply sublist_skip | by apply sublist_cons].
Qed.

Lemma select_true l n : length l ≤ n → select (replicate n true) l = l.
Proof.
  revert n. induction l as [|x l IH]; intros [|n] Hn; simpl in *; try done; try lia.
  rewrite IH; [done | lia].
Qed.

Lemma length_select_eq (k : list B) mask l :
  length l = length k → length (select mask l) = length (select mask k).
Proof.
  revert l k. induction mask as [|b mask IH]; intros [|x l] [|y k] Hl;
    simpl in *; try done.
  destruct b; simpl; rewrite (IH l k); congruence.
Qed.

Lemma select_replicate mask n (x : A) :
  select mask (replicate n x) = replicate (length (select mask (replicate n x))) x.
Proof.
  revert n. induction mask as [|b mask IH]; intros [|n]; simpl; try done.
  destruct b; simpl; by rewrite <- IH.
Qed.
End Select.

Lemma select_zip_with {A B C} (f : A → B → C) mask l k :
  select mask (zip_with f l k) = zip_with f (select mask l) (select mask k).
Proof.
  revert l k. induction mask as [|b mask IH]; intros [|x l] [|y k]; simpl; try done.
  - destruct b; simpl; [done|]. by destruct (select mask l).
  - destruct b; simpl; by rewrite IH.
Qed.

Lemma values_select_series mask s :
  values (select_series mask s) = select mask (values s).
Proof. destruct s; simpl; [by rewrite select_fmap | done]. Qed.

Lemma select_transpose mask n m cols :
  m = length (select mask (replicate n ())) →
  select mask (transpose n cols) = transpose m (select mask <$> cols).
Proof.
  intros ->. induction cols as [|c cols IH]; simpl.
  - rewrite select_replicate. f_equal.
    apply length_select_eq. by rewrite !length_replicate.
  - by rewrite select_zip_with, IH.
Qed.

(** Boolean indexing of a frame selects its rows. *)
Lemma rows_loc_mask df mask : rows (loc_mask df mask) = select mask (rows df).
Proof.
  unfold rows, loc_mask; simpl.
  rewrite (select_transpose mask _ (length (select mask (index df)))).
  - f_equal. rewrite <- !list_fmap_compose. apply list_fmap_ext.
    intros i [n s] _. simpl. apply values_select_series.
  - apply length_select_eq. by rewrite length_replicate.
Qed.

Lemma length_transpose n cols :
  Forall (λ c, length c = n) cols → length (transpose n cols) = n.
Proof.
  induction 1 as [|c cols Hc _ IH]; simpl.
  - apply length_replicate.
  - rewrite length_zip_with. lia.
Qed.

Lemma transpose_lookup n cols i :
  Forall (λ c, length c = n) cols → (i < n)%nat →
  transpose n cols !! i = Some ((λ c, nth i c NaN) <$> cols).
Proof.
  intros Hall Hi. induction Hall as [|c cols Hc _ IH]; simpl.
  - by apply lookup_replicate_2.
  - rewrite lookup_zip_with, IH. simpl.
    destruct (c !! i) as [x|] eqn:Hx.
    + simpl. do 2 f_equal. symmetry. by apply nth_lookup_Some with (d := NaN).
    + apply lookup_ge_None in Hx. lia.
Qed.

Lemma wf_columns_length df :
  wf df → Forall (λ c, length c = length (index df)) ((λ c, values c.2) <$> data df).
Proof.
  intros [_ Hl]. by apply Forall_fmap.
Qed.

Lemma length_rows df : wf df → length (rows df) = length (index df).
Proof. intros Hwf. by apply length_transpose, wf_columns_length. Qed.

(** In a well-formed frame the [i]-th row holds the [i]-th cell of every
    column. *)
Lemma rows_lookup df i :
  wf df → (i < length (index df))%nat → rows df !! i = Some (row_at df i).
Proof.
  intros Hwf Hi. unfold rows, row_at.
  rewrite transpose_lookup; [|by apply wf_columns_length|done].
  by rewrite <- list_fmap_compose.
Qed.

(** ** The duplicate scan *)

Lemma length_dup_scan seen rs : length (dup_scan seen rs) = length rs.
Proof.
  revert seen. induction rs as [|r rs IH]; intros seen; simpl; [done|].
  case_bool_decide; simpl; by rewrite IH.
Qed.

(** A row is marked exactly when its cells occur in an earlier row (or in
    the rows seen before the scan started). *)
Lemma dup_scan_spec seen rs i r b :
  rs !! i = Some r → dup_scan seen rs !! i = Some b →
  b = true ↔ r ∈ seen ∨ ∃ j, j < i ∧ rs !! j = Some r.
Proof.
  revert seen i. induction rs as [|r0 rs IH]; intros seen i Hr; [done|].
  destruct i as [|i]; simpl in *.
  - injection Hr as ->. case_bool_decide as Hs; simpl; intros [= <-].
    + split; [by left | done].
    + split; [done|]. intros [?|(j & ? & _)]; [done|lia].
  - case_bool_decide as Hs; simpl; intros Hb; rewrite (IH _ _ Hr Hb); split.
    + intros [?|(j & Hj & Hjr)]; [by left|].
      right. exists (S j). split; [lia|done].
    + intros [?|(j & Hj & Hjr)]; [by left|].
      destruct j as [|j]; simpl in Hjr.
      * left. by injection Hjr as ->.
      * right. exists j. split; [lia|done].
    + intros [[->|?]%elem_of_cons|(j & Hj & Hjr)].
      * right. exists 0. split; [lia|done].
      * by left.
      * right. exists (S j). split; [lia|done].
    + intros [?|(j & Hj & Hjr)]; [left; by right|].
      destruct j as [|j]; simpl in Hjr.
      * left. injection Hjr as ->. by left.
      * right. exists j. split; [lia|done].
Qed.

Lemma first_occurrences_cons seen r rs :
  first_occurrences seen (r :: rs) =
    if bool_decide (r ∈ seen) then first_occurrences seen rs
    else r :: first_occurrences (r :: seen) rs.
Proof. unfold first_occurrences. simpl. by case_bool_decide. Qed.

Lemma first_occurrences_fresh seen rs r :
  r ∈ first_occurrences seen rs → r ∉ seen.
Proof.
  revert seen. induction rs as [|r0 rs IH]; intros seen.
  - by intros ?%elem_of_nil.
  - rewrite first_occurrences_cons. case_bool_decide as Hs.
    + apply IH.
    + intros [->|Hr]%elem_of_cons; [done|].
      apply IH in Hr. set_solver.
Qed.

Lemma first_occurrences_NoDup seen rs : NoDup (first_occurrences seen rs).
Proof.
  revert seen. induction rs as [|r rs IH]; intros seen.
  - constructor.
  - rewrite first_occurrences_cons. case_bool_decide; [apply IH|].
    constructor; [|apply IH].
    intros Hr%first_occurrences_fresh. set_solver.
Qed.

Lemma first_occurrences_complete seen rs r :
  r ∈ rs → r ∈ seen ∨ r ∈ first_occurrences seen rs.
Proof.
  revert seen. induction rs as [|r0 rs IH]; intros seen.
  - by intros ?%elem_of_nil.
  - rewrite first_occurrences_cons.
    intros [->|Hr]%elem_of_cons; case_bool_decide as Hs.
    + by left.
    + right. left.
    + by apply IH.
    + destruct (IH (r0 :: seen) Hr) as [[->|?]%elem_of_cons|?].
      * right. left.
      * by left.
      * right. by right.
Qed.

Lemma dup_scan_NoDup seen rs :
  NoDup rs → (∀ r, r ∈ rs → r ∉ seen) →
  dup_scan seen rs = replicate (length rs) false.
Proof.
  intros Hnd. revert seen. induction Hnd as [|r rs Hr _ IH]; intros seen Hs; [done|].
  simpl. rewrite bool_decide_eq_false_2 by (apply Hs; left).
  f_equal. apply IH. intros r' Hr' [->|Hin]%elem_of_cons; [done|].
  by apply (Hs r'); [right|].
Qed.

(** ** Columns *)

Lemma transform_names F d : fst <$> transform F d = fst <$> d.
Proof. unfold transform. rewrite <- list_fmap_compose. by apply list_fmap_ext. Qed.

Lemma transform_ext F G d :
  (∀ n s, (n, s) ∈ d → F n s = G n s) → transform F d = transform G d.
Proof.
  intros H. apply list_fmap_ext. intros i [n s] Hi. simpl. f_equal.
  apply H. by eapply list_elem_of_lookup_2.
Qed.

Lemma transform_compose F G d :
  transform G (transform F d) = transform (λ n s, G n (F n s)) d.
Proof. unfold transform. by rewrite <- list_fmap_compose. Qed.

Lemma transform_id d : transform (λ _ s, s) d = d.
Proof.
  induction d as [|[n s] d IH]; [done|].
  unfold transform in *. simpl. by f_equal.
Qed.

Lemma lookup_col_transform F col d :
  lookup_col col (transform F d) = F col <$> lookup_col col d.
Proof.
  induction d as [|[n s] d IH]; simpl; [done|].
  case_decide; [by subst | done].
Qed.

Lemma lookup_col_Some col d s : lookup_col col d = Some s → (col, s) ∈ d.
Proof.
  induction d as [|[n s0] d IH]; simpl; [done|].
  case_decide; [intros [= ->]; subst; left | intros ?; right; auto].
Qed.

Lemma lookup_col_None col d : lookup_col col d = None ↔ col ∉ fst <$> d.
Proof.
  induction d as [|[n s0] d IH]; simpl.
  - split; [intros _ ?%elem_of_nil; done | done].
  - case_decide; subst.
    + split; [done | intros []; left].
    + rewrite IH, not_elem_of_cons. split; [by intros ?; split; [congruence|] | by intros []].
Qed.

Lemma lookup_col_elem col d s :
  NoDup (fst <$> d) → (col, s) ∈ d → lookup_col col d = Some s.
Proof.
  induction d as [|[n s0] d IH]; simpl.
  - by intros _ ?%elem_of_nil.
  - intros [Hn Hd]%NoDup_cons [[= -> ->]|Hin]%elem_of_cons.
    + by rewrite decide_True.
    + rewrite decide_False; [by apply IH|].
      intros ->. apply Hn. apply list_elem_of_fmap. by exists (col, s).
Qed.

(** Assigning [f] of a column to that column is a [transform], when the
    names are distinct. *)
Lemma assign_col_transform f col d :
  NoDup (fst <$> d) →
  match lookup_col col d with
  | Some s => assign_col col (f s) d
  | None => d
  end = transform (λ n s, if decide (n = col) then f s else s) d.
Proof.
  induction d as [|[n s0] d IH]; simpl; [done|].
  intros [Hn Hd]%NoDup_cons. case_decide as Hc.
  - subst. f_equal. rewrite <- (transform_id d) at 1.
    apply transform_ext. intros n s Hin. rewrite decide_False; [done|].
    intros ->. apply Hn. apply list_elem_of_fmap. by exists (col, s).
  - specialize (IH Hd). destruct (lookup_col col d); simpl; by f_equal.
Qed.

(** ** The cleaning pipeline, column by column *)

Lemma text_cols_NoDup : NoDup text_cols.
Proof. by apply (bool_decide_unpack _). Qed.

Lemma text_numeric_disjoint col : col ∈ text_cols → col ∈ numeric_cols → False.
Proof.
  intros Ht Hn.
  assert (Forall (λ c, c ∉ numeric_cols) text_cols) as Hall
    by by apply (bool_decide_unpack _).
  by eapply Forall_forall in Hall.
Qed.

Lemma forallb_ext_elem {A} (f g : A → bool) l :
  (∀ x, x ∈ l → f x = g x) → forallb f l = forallb g l.
Proof.
  induction l as [|x l IH]; intros H; simpl; [done|].
  rewrite H by left. f_equal. apply IH. intros y Hy. apply H. by right.
Qed.

Section PipelineFacts.
Context {U : Unicode}.

Lemma str_accessor_map_str f v :
  str_accessor (map_str f v) = Ok ((λ c, match c with Str s => Str (f s) | _ => NaN end) <$> v).
Proof.
  unfold map_str, str_accessor.
  replace (existsb is_num _) with false; [done|].
  symmetry. induction v as [|[] v IH]; simpl; auto.
Qed.

Lemma strip_upper_spec s :
  strip_upper s = if str_ok s then Ok (normalize_series s) else Raise AttributeError.
Proof.
  unfold strip_upper. destruct s as [v|v]; [done|].
  cbn [str_accessor str_ok].
  destruct (existsb is_num v && negb (existsb is_str v));
    cbn [mbind result_bind negb]; [done|].
  rewrite str_accessor_map_str. cbn [mbind result_bind].
  unfold map_str, normalize_series, mret, result_ret.
  do 2 f_equal. rewrite <- list_fmap_compose. apply list_fmap_ext.
  by intros i [] _.
Qed.

Lemma to_numeric_idem s : to_numeric (to_numeric s) = to_numeric s.
Proof. by destruct s. Qed.

Lemma coerce_col_spec df col :
  NoDup (columns df) →
  coerce_col df col =
    {| index := index df;
       data := transform (λ n s, if decide (n = col) then to_numeric s else s) (data df) |}.
Proof.
  intros Hnd. unfold coerce_col, getitem, setitem.
  rewrite <- (assign_col_transform to_numeric col (data df) Hnd).
  destruct (lookup_col col (data df)); [done|]. by destruct df.
Qed.

Lemma foldl_coerce_col df cols :
  NoDup (columns df) →
  foldl coerce_col df cols =
    {| index := index df;
       data := transform (λ n s, if decide (n ∈ cols) then to_numeric s else s) (data df) |}.
Proof.
  revert df. induction cols as [|col cols IH]; intros df Hnd; simpl.
  - destruct df as [ix d]. simpl. f_equal.
    rewrite <- (transform_id d) at 1. apply transform_ext.
    intros n s _. cbv beta.
    first [done | rewrite decide_False; [done|]; apply not_elem_of_nil].
  - rewrite IH, coerce_col_spec by
      (rewrite ?coerce_col_spec by done; unfold columns; simpl;
       by rewrite ?transform_names).
    simpl. f_equal. rewrite transform_compose. apply transform_ext.
    intros n s _. cbv beta. destruct (decide (n = col)) as [->|Hne].
    + rewrite (decide_True (P := col ∈ col :: cols)) by left.
      destruct (decide (col ∈ cols)); [apply to_numeric_idem | done].
    + destruct (decide (n ∈ cols)) as [Hin|Hin].
      * rewrite decide_True; [done | by right].
      * rewrite decide_False; [done|].
        intros [?|?]%elem_of_cons; done.
Qed.

Lemma normalize_col_spec df col :
  NoDup (columns df) →
  normalize_col df col =
    if text_ready (data df) [col] then
      Ok {| index := index df;
            data := transform (λ n s, if decide (n = col) then normalize_series s else s)
                      (data df) |}
    else Raise AttributeError.
Proof.
  intros Hnd. unfold normalize_col, getitem, setitem, text_ready. simpl.
  rewrite <- (assign_col_transform normalize_series col (data df) Hnd).
  destruct (lookup_col col (data df)) as [s|]; simpl.
  - rewrite strip_upper_spec, andb_true_r. by destruct (str_ok s).
  - by destruct df.
Qed.

Lemma for_each_normalize_col df cols :
  NoDup (columns df) → NoDup cols →
  for_each normalize_col df cols =
    if text_ready (data df) cols then
      Ok {| index := index df;
            data := transform (λ n s, if decide (n ∈ cols) then normalize_series s else s)
                      (data df) |}
    else Raise AttributeError.
Proof.
  revert df. induction cols as [|col cols IH]; intros df Hnd Hcols; simpl.
  - destruct df as [ix d]. unfold mret, result_ret. simpl. do 2 f_equal.
    rewrite <- (transform_id d) at 1. apply transform_ext.
    intros n s _. cbv beta.
    first [done | rewrite decide_False; [done|]; apply not_elem_of_nil].
  - apply NoDup_cons in Hcols as [Hcol Hcols].
    rewrite normalize_col_spec by done. unfold text_ready at 1. simpl.
    rewrite andb_true_r.
    destruct (match lookup_col col (data df) with
              | Some s => str_ok s | None => true end) eqn:Hok; simpl; [|done].
    rewrite IH; [|unfold columns; simpl; by rewrite transform_names|done].
    cbn [index data].
    assert (text_ready
              (transform (λ n s, if decide (n = col) then normalize_series s else s)
                 (data df)) cols = text_ready (data df) cols) as ->.
    { unfold text_ready. apply forallb_ext_elem. intros c Hc.
      rewrite lookup_col_transform.
      destruct (lookup_col c (data df)); simpl; [|done].
      rewrite decide_False; [done | by intros ->]. }
    destruct (text_ready (data df) cols); [|done].
    do 2 f_equal. rewrite transform_compose. apply transform_ext.
    intros n s _. cbv beta. destruct (decide (n = col)) as [->|Hne].
    + rewrite (decide_True (P := col ∈ col :: cols)) by left.
      by rewrite decide_False.
    + destruct (decide (n ∈ cols)) as [Hin|Hin].
      * rewrite decide_True; [done | by right].
      * rewrite decide_False; [done|].
        intros [?|?]%elem_of_cons; done.
Qed.

Lemma columns_loc_mask df mask : columns (loc_mask df mask) = columns df.
Proof.
  unfold columns, loc_mask. simpl. rewrite <- list_fmap_compose.
  apply list_fmap_ext. by intros i [n s] _.
Qed.

(** [clean_data] in one step: it raises [AttributeError] unless [.str]
    applies to every designated text column that is present, and
    otherwise transforms the deduplicated frame column by column. *)
Lemma clean_data_spec df :
  NoDup (columns df) →
  clean_data df =
    let dd := drop_duplicates df in
    if text_ready (data dd) text_cols then
      Ok {| index := index dd; data := transform clean_series (data dd) |}
    else Raise AttributeError.
Proof.
  intros Hnd. unfold clean_data, coerce_numeric, normalize_text.
  set (dd := drop_duplicates df).
  assert (NoDup (columns dd)) as Hdd
    by (unfold dd, drop_duplicates; by rewrite columns_loc_mask).
  rewrite foldl_coerce_col by done.
  rewrite for_each_normalize_col;
    [|unfold columns; simpl; by rewrite transform_names|apply text_cols_NoDup].
  cbn [index data].
  assert (text_ready
            (transform (λ n s, if decide (n ∈ numeric_cols) then to_numeric s else s)
               (data dd)) text_cols = text_ready (data dd) text_cols) as ->.
  { unfold text_ready. apply forallb_ext_elem. intros c Hc.
    rewrite lookup_col_transform.
    destruct (lookup_col c (data dd)); simpl; [|done].
    rewrite decide_False; [done|].
    intros Hn. by eapply text_numeric_disjoint. }
  destruct (text_ready (data dd) text_cols); [|done].
  do 2 f_equal. rewrite transform_compose. apply transform_ext.
  intros n s _. cbv beta. unfold clean_series.
  destruct (decide (n ∈ numeric_cols)) as [Hn|Hn]; [|done].
  rewrite decide_False; [done|].
  intros Ht. by eapply text_numeric_disjoint.
Qed.
End PipelineFacts.

(** ** Rows of the cleaned frame *)

Lemma transpose_transform (f : pystr → cell → cell) F n d :
  (∀ m s, values (F m s) = f m <$> values s) →
  transpose n ((λ c, values c.2) <$> transform F d) =
    zip_with f (fst <$> d) <$> transpose n ((λ c, values c.2) <$> d).
Proof.
  intros HF. induction d as [|[m s] d IH].
  - simpl. by rewrite fmap_replicate.
  - change (transform F ((m, s) :: d)) with ((m, F m s) :: transform F d).
    rewrite !fmap_cons. cbn [transpose fst snd]. rewrite IH, HF. clear IH.
    generalize (transpose n ((λ c, values c.2) <$> d)) as T.
    induction (values s) as [|x l IHl]; intros [|r T]; simpl; try done.
    by rewrite IHl.
Qed.

Lemma wf_loc_mask df mask : wf df → wf (loc_mask df mask).
Proof.
  intros [Hn Hl]. split; [by rewrite columns_loc_mask|].
  unfold loc_mask. simpl. apply Forall_fmap. eapply Forall_impl; [done|].
  intros [n s] Hs. simpl in *. rewrite values_select_series.
  by apply length_select_eq.
Qed.

Lemma loc_mask_true df n :
  wf df → length (index df) ≤ n → loc_mask df (replicate n true) = df.
Proof.
  intros [_ Hl] Hn. destruct df as [ix d]. unfold loc_mask. simpl in *.
  rewrite select_true by done. f_equal.
  induction Hl as [|[m s] d Hs _ IH]; simpl; [done|].
  f_equal; [|done]. unfold prod_map. simpl. f_equal.
  simpl in Hs. destruct s as [v|v]; simpl in *; rewrite select_true; try done.
  - rewrite length_fmap in Hs. lia.
  - lia.
Qed.

(** A frame without identical rows is left as it is by [drop_duplicates]. *)
Lemma drop_duplicates_NoDup df :
  wf df → NoDup (rows df) → drop_duplicates df = df.
Proof.
  intros Hwf Hnd. unfold drop_duplicates, duplicated.
  rewrite dup_scan_NoDup; [|done|intros r _; apply not_elem_of_nil].
  rewrite fmap_replicate. apply loc_mask_true; [done|].
  by rewrite length_rows.
Qed.

Section CleanRows.
Context {U : Unicode}.

Lemma coerce_num_cell o : coerce_cell (num_cell o) = o.
Proof. by destruct o. Qed.

Lemma values_to_numeric s : to_numeric s = Numeric (coerce_cell <$> values s).
Proof.
  destruct s as [v|v]; simpl; [|done].
  rewrite <- list_fmap_compose. f_equal.
  rewrite <- (list_fmap_id v) at 1. apply list_fmap_ext.
  intros i o _. simpl. by rewrite coerce_num_cell.
Qed.

Lemma values_clean_series n s :
  values (clean_series n s) = clean_cell n <$> values s.
Proof.
  unfold clean_series, clean_cell.
  destruct (decide (n ∈ numeric_cols)).
  - rewrite values_to_numeric. simpl. by rewrite <- list_fmap_compose.
  - destruct (decide (n ∈ text_cols)); [done|]. by rewrite list_fmap_id.
Qed.

Lemma clean_data_Ok df df' :
  wf df → clean_data df = Ok df' →
  text_ready (data (drop_duplicates df)) text_cols = true ∧
  df' = {| index := index (drop_duplicates df);
           data := transform clean_series (data (drop_duplicates df)) |}.
Proof.
  intros [Hn _]. rewrite clean_data_spec by done. cbv zeta.
  destruct (text_ready _ _); [|done]. by intros [= <-].
Qed.

Lemma clean_data_columns df df' :
  wf df → clean_data df = Ok df' → columns df' = columns df.
Proof.
  intros Hwf [_ ->]%clean_data_Ok; [|done].
  unfold columns. simpl. rewrite transform_names.
  apply (columns_loc_mask df).
Qed.

Lemma clean_data_rows df df' :
  wf df → clean_data df = Ok df' →
  rows df' = zip_with clean_cell (columns df) <$> rows (drop_duplicates df).
Proof.
  intros Hwf [_ ->]%clean_data_Ok; [|done].
  unfold rows. simpl.
  rewrite (transpose_transform clean_cell) by apply values_clean_series.
  f_equal. f_equal. apply (columns_loc_mask df).
Qed.

Lemma clean_data_wf df df' : wf df → clean_data df = Ok df' → wf df'.
Proof.
  intros Hwf Hc. pose proof (clean_data_columns _ _ Hwf Hc) as Hcols.
  apply clean_data_Ok in Hc as [_ ->]; [|done].
  split; [rewrite Hcols; apply Hwf|]. simpl.
  apply (wf_loc_mask df (negb <$> duplicated df)) in Hwf as [_ Hl].
  unfold transform. apply Forall_fmap. eapply Forall_impl; [apply Hl|].
  intros [n s] Hs. simpl in *.
  by rewrite values_clean_series, length_fmap.
Qed.

Lemma rows_drop_duplicates df :
  rows (drop_duplicates df) = first_occurrences [] (rows df).
Proof. apply rows_loc_mask. Qed.
End CleanRows.

Lemma data_loc_mask df mask :
  data (loc_mask df mask) = transform (λ _ s, select_series mask s) (data df).
Proof. unfold loc_mask, transform. simpl. apply list_fmap_ext. by intros i [n s] _. Qed.

Lemma getitem_loc_mask df mask col :
  getitem (loc_mask df mask) col = select_series mask <$> getitem df col.
Proof. unfold getitem. by rewrite data_loc_mask, lookup_col_transform. Qed.

Section CleanColumns.
Context {U : Unicode}.

Lemma getitem_clean_data df df' col :
  wf df → clean_data df = Ok df' →
  getitem df' col = clean_series col <$> getitem (drop_duplicates df) col.
Proof.
  intros Hwf [_ ->]%clean_data_Ok; [|done].
  unfold getitem. simpl. apply lookup_col_transform.
Qed.

Lemma getitem_coerce_numeric df col :
  wf df →
  getitem (coerce_numeric df) col =
    (λ s, if decide (col ∈ numeric_cols) then to_numeric s else s) <$> getitem df col.
Proof.
  intros [Hn _]. unfold coerce_numeric, getitem.
  rewrite foldl_coerce_col by done. simpl. apply lookup_col_transform.
Qed.

Lemma existsb_is_num_normalize l : existsb is_num (normalize_cell <$> l) = false.
Proof. induction l as [|[] l IH]; simpl; auto. Qed.

Lemma normalize_cell_shape c :
  normalize_cell c = NaN ∨ ∃ s, c = Str s ∧ normalize_cell c = Str (str_upper (str_strip s)).
Proof. destruct c; simpl; eauto. Qed.

(** [clean_data] returns exactly on the frames whose designated text
    columns, as far as they are present, all admit the [.str] accessor. *)
Lemma clean_data_returns df :
  wf df →
  text_ready (data (drop_duplicates df)) text_cols = true ↔
  ∃ df', clean_data df = Ok df'.
Proof.
  intros [Hn _]. rewrite clean_data_spec by done. cbv zeta.
  destruct (text_ready _ _); split; try done; [eauto | by intros [? ?]].
Qed.

(** On an [object] column of strings and missing markers, every string
    is trimmed and upper-cased and every missing marker is kept. *)
Lemma text_normalization_object df df' col v :
  wf df → clean_data df = Ok df' → col ∈ text_cols →
  getitem (drop_duplicates df) col = Some (Object v) →
  getitem df' col = Some (Object (normalize_cell <$> v)).
Proof.
  intros Hwf Hc Hcol Hv. rewrite (getitem_clean_data df) by done.
  rewrite Hv. simpl. unfold clean_series.
  rewrite decide_False by (intros ?; by eapply text_numeric_disjoint).
  by rewrite decide_True.
Qed.

Context {L : UnicodeLaws U}.

Lemma normalize_cell_idem c : normalize_cell (normalize_cell c) = normalize_cell c.
Proof.
  destruct c as [s| |]; simpl; try done.
  by rewrite normal_form_strip, str_upper_idem.
Qed.

(** Cleaning an already cleaned column, restricted to some of its rows,
    changes nothing. *)
Lemma clean_series_select_idem mask n s :
  clean_series n (select_series mask (clean_series n s)) =
    select_series mask (clean_series n s).
Proof.
  unfold clean_series.
  destruct (decide (n ∈ numeric_cols)).
  - by destruct s.
  - destruct (decide (n ∈ text_cols)); [|done].
    unfold normalize_series. simpl. f_equal.
    rewrite select_fmap, <- list_fmap_compose.
    apply list_fmap_ext. intros i c _. apply normalize_cell_idem.
Qed.
End CleanColumns.

(** ** The store *)

Lemma run_bind {S A B} (m : ST S A) (f : A → ST S B) σ :
  (m ≫= f) σ =
    match m σ with
    | (Ok a, σ') => f a σ'
    | (Raise e, σ') => (Raise e, σ')
    end.
Proof. reflexivity. Qed.

Lemma load_insert r x (σ : gmap ref DataFrame) :
  load r (<[r := x]> σ) = (Ok x, <[r := x]> σ).
Proof. unfold load. by rewrite lookup_insert_eq. Qed.

Lemma update_insert r x f (σ : gmap ref DataFrame) :
  update r f (<[r := x]> σ) = (Ok (), <[r := f x]> σ).
Proof. unfold update. by rewrite lookup_insert_eq, insert_insert_eq. Qed.

Lemma getitem_columns df col :
  bool_decide (col ∈ columns df) = bool_decide (is_Some (getitem df col)).
Proof.
  apply bool_decide_ext. unfold getitem, columns.
  destruct (lookup_col col (data df)) as [s|] eqn:Hs.
  - split; [eauto|]. intros _. apply lookup_col_Some in Hs.
    apply list_elem_of_fmap. by exists (col, s).
  - apply lookup_col_None in Hs. split; [done|]. by intros [? [=]].
Qed.

Section StoreFacts.
Context {U : Unicode}.

(** One iteration of the first loop writes [coerce_col] of the frame
    behind [r] into that same object. *)
Lemma numeric_step r x col (σ : gmap ref DataFrame) :
  (b ← df_contains r col;
   if b : bool then s ← df_getitem r col; df_setitem r col (to_numeric s)
   else mret ()) (<[r := x]> σ)
  = (Ok (), <[r := coerce_col x col]> σ).
Proof.
  rewrite run_bind. unfold df_contains. rewrite run_bind, load_insert.
  unfold mret at 1, st_ret. rewrite getitem_columns. unfold coerce_col.
  destruct (getitem x col) as [s|] eqn:Hs.
  - rewrite bool_decide_eq_true_2 by eauto.
    rewrite run_bind. unfold df_getitem. rewrite run_bind, load_insert, Hs.
    unfold mret, st_ret, df_setitem. by rewrite update_insert.
  - rewrite bool_decide_eq_false_2 by (by intros [? [=]]).
    done.
Qed.

Lemma numeric_loop r x cols (σ : gmap ref DataFrame) :
  for_cols cols (λ col,
     b ← df_contains r col;
     if b : bool then s ← df_getitem r col; df_setitem r col (to_numeric s)
     else mret ()) (<[r := x]> σ)
  = (Ok (), <[r := foldl coerce_col x cols]> σ).
Proof.
  revert x. induction cols as [|col cols IH]; intros x; [done|].
  cbn [for_cols foldl]. rewrite run_bind, numeric_step. apply IH.
Qed.

Lemma text_step r x col (σ : gmap ref DataFrame) :
  (b ← df_contains r col;
   if b : bool then
     s ← df_getitem r col; s' ← lift (strip_upper s); df_setitem r col s'
   else mret ()) (<[r := x]> σ)
  = match normalize_col x col with
    | Ok x' => (Ok (), <[r := x']> σ)
    | Raise e => (Raise e, <[r := x]> σ)
    end.
Proof.
  rewrite run_bind. unfold df_contains. rewrite run_bind, load_insert.
  unfold mret at 1, st_ret. rewrite getitem_columns. unfold normalize_col.
  destruct (getitem x col) as [s|] eqn:Hs.
  - rewrite bool_decide_eq_true_2 by eauto.
    rewrite run_bind. unfold df_getitem. rewrite run_bind, load_insert, Hs.
    unfold mret at 1, st_ret. rewrite run_bind. unfold lift.
    destruct (strip_upper s) as [s'|e]; [|done].
    unfold df_setitem. by rewrite update_insert.
  - rewrite bool_decide_eq_false_2 by (by intros [? [=]]).
    done.
Qed.

Lemma text_loop r x cols (σ : gmap ref DataFrame) :
  ∃ y,
    for_cols cols (λ col,
       b ← df_contains r col;
       if b : bool then
         s ← df_getitem r col; s' ← lift (strip_upper s); df_setitem r col s'
       else mret ()) (<[r := x]> σ)
    = (match for_each normalize_col x cols with
       | Ok _ => Ok ()
       | Raise e => Raise e
       end, <[r := y]> σ) ∧
    ∀ x', for_each normalize_col x cols = Ok x' → y = x'.
Proof.
  revert x. induction cols as [|col cols IH]; intros x.
  - exists x. split; [done|]. by intros x' [= <-].
  - cbn [for_cols for_each]. rewrite run_bind, text_step.
    destruct (normalize_col x col) as [x1|e]; cbn [mbind result_bind].
    + apply IH.
    + exists x. by split.
Qed.

(** The command and the function agree: the result is a new object that
    holds [clean_data] of the frame behind the argument. *)
Lemma clean_data_cmd_spec r df (σ : gmap ref DataFrame) :
  σ !! r = Some df →
  ∃ y,
    clean_data_cmd r σ
    = (match clean_data df with
       | Ok _ => Ok (fresh (dom σ))
       | Raise e => Raise e
       end, <[fresh (dom σ) := y]> σ) ∧
    ∀ df', clean_data df = Ok df' → y = df'.
Proof.
  intros Hr. unfold clean_data_cmd, clean_data, normalize_text, coerce_numeric.
  rewrite run_bind. unfold df_drop_duplicates. rewrite run_bind.
  unfold load. rewrite Hr. unfold alloc.
  rewrite run_bind, numeric_loop, run_bind.
  destruct (text_loop (fresh (dom σ))
              (foldl coerce_col (drop_duplicates df) numeric_cols) text_cols σ)
    as (y & -> & Hy).
  exists y. split; [|done].
  by destruct (for_each normalize_col _ text_cols).
Qed.
End StoreFacts.


(** ** The loaders *)

Lemma choose_delimiter_cases line :
  (choose_delimiter line = comma ∨ choose_delimiter line = semicolon) ∧
  (choose_delimiter line = comma ↔
     count_char semicolon line < count_char comma line).
Proof.
  unfold choose_delimiter.
  destruct (Nat.ltb_spec (count_char semicolon line) (count_char comma line)).
  - split; [by left|]. by split.
  - split; [by right|]. split; [discriminate | lia].
Qed.

(** Case analysis on the membership of an event in an explicit log. *)
Ltac log_cases H :=
  repeat (apply elem_of_cons in H as [H|H]);
  try (by apply elem_of_nil in H); try discriminate H;
  try (injection H as -> ->).

Section LoaderFacts.
Context {P : Platform}.

Lemma load_uploaded_file_run raw :
  load_uploaded_file raw [] =
    let enc := chardet_detect raw in
    match bytes_decode enc raw with
    | Ok text =>
        let d := choose_delimiter (readline text) in
        match read_csv text d with
        | Ok df => (Ok (Some df), [EvDecode enc; EvReadCsv text d])
        | Raise e =>
            if bool_decide (e = UnicodeDecodeError) then
              let t := decode_latin1 raw in
              let d' := choose_delimiter (readline t) in
              match read_csv t d' with
              | Ok df => (Ok (Some df),
                          [EvDecode enc; EvReadCsv text d;
                           EvDecode (Some latin1); EvReadCsv t d'])
              | Raise e' => (Ok None,
                          [EvDecode enc; EvReadCsv text d;
                           EvDecode (Some latin1); EvReadCsv t d'; EvError e'])
              end
            else (Raise e, [EvDecode enc; EvReadCsv text d])
        end
    | Raise e =>
        if bool_decide (e = UnicodeDecodeError) then
          let t := decode_latin1 raw in
          let d' := choose_delimiter (readline t) in
          match read_csv t d' with
          | Ok df => (Ok (Some df),
                      [EvDecode enc; EvDecode (Some latin1); EvReadCsv t d'])
          | Raise e' => (Ok None,
                      [EvDecode enc; EvDecode (Some latin1); EvReadCsv t d';
                       EvError e'])
          end
        else (Raise e, [EvDecode enc])
    end.
Proof.
  unfold load_uploaded_file, try_except, parse, st_error, emit, lift,
    mbind, st_bind, mret, st_ret.
  cbv zeta. simpl.
  destruct (bytes_decode (chardet_detect raw) raw) as [text|e]; simpl.
  - destruct (read_csv text _) as [df|e]; simpl; [done|].
    case_bool_decide; [|done].
    by destruct (read_csv (decode_latin1 raw) _).
  - case_bool_decide; [|done].
    by destruct (read_csv (decode_latin1 raw) _).
Qed.

(** Every call of the CSV parser by the upload loader passes the
    delimiter chosen from the first line of the text that it passes. *)
Lemma read_csv_delimiter raw text d :
  EvReadCsv text d ∈ (load_uploaded_file raw []).2 →
  d = choose_delimiter (readline text) ∧
  (bytes_decode (chardet_detect raw) raw = Ok text ∨ text = decode_latin1 raw).
Proof.
  intros Hin. rewrite load_uploaded_file_run in Hin. cbv zeta in Hin.
  destruct (bytes_decode (chardet_detect raw) raw) as [t|e] eqn:Hd;
    [destruct (read_csv t _) as [df|e]|];
    try (case_bool_decide; [destruct (read_csv (decode_latin1 raw) _)|]);
    simpl in Hin; log_cases Hin; auto.
Qed.

(** The first line of a file is read from its first chunk when that
    chunk shows the end of a line: nothing behind it is decoded. *)
Lemma text_readline_first_chunk encoding content text :
  content ≠ [] →
  incremental_decode encoding (take chunk_size content) false = Ok text →
  has_line_end (hold_cr text) = true →
  text_readline encoding content = Ok (readline_universal (hold_cr text)).
Proof.
  intros Hne Hdec Hend. unfold text_readline.
  destruct content as [|b content]; [done|].
  cbn [length read_chunks readline_chunks]. rewrite app_nil_l, Hdec.
  cbn [mbind result_bind]. by rewrite Hend.
Qed.

(** A file of one chunk that shows no end of a line is decoded to its
    end, and its text is its first line. *)
Lemma text_readline_one_line encoding content text text' :
  content ≠ [] → length content ≤ chunk_size →
  incremental_decode encoding content false = Ok text →
  has_line_end (hold_cr text) = false →
  incremental_decode encoding content true = Ok text' →
  text_readline encoding content = Ok (readline_universal text').
Proof.
  intros Hne Hlen Hdec Hend Hfin. unfold text_readline.
  destruct content as [|b content]; [done|].
  cbn [length read_chunks readline_chunks]. rewrite app_nil_l.
  rewrite take_ge by done. rewrite Hdec. cbn [mbind result_bind]. rewrite Hend.
  rewrite drop_ge by done.
  destruct (length content); cbn [read_chunks readline_chunks];
    by rewrite Hfin.
Qed.

(** The path loader returns the guess of [chardet] on the first 10000
    bytes and the delimiter chosen from the first line read. *)
Lemma detect_file_properties_Ok path enc d :
  detect_file_properties path = Ok (enc, d) →
  ∃ content line,
    read_binary path = Ok content ∧
    enc = chardet_detect (take 10000 content) ∧
    text_readline (default locale_encoding enc) content = Ok line ∧
    d = choose_delimiter line.
Proof.
  unfold detect_file_properties.
  destruct (read_binary path) as [content|e]; [|done].
  cbn [mbind result_bind].
  destruct (text_readline _ content) as [line|e] eqn:Hl; [|done].
  cbn [mbind result_bind]. intros [= <- <-]. by exists content, line.
Qed.
End LoaderFacts.

(** ** The CSV export

    The tokenizer reads what the writer wrote. *)

Local Open Scope N_scope.











(** *** Lines that are not blank *)








Local Close Scope N_scope.
(** ** Printing and reading numbers *)

Local Open Scope N_scope.










(** *** Reading digits *)










Lemma Qred_whole z : Qred (z # 1) = z # 1.
Proof.
  unfold Qred.
  pose proof (Z.ggcd_gcd z 1) as Hg.
  pose proof (Z.ggcd_correct_divisors z 1) as Hd.
  destruct (Z.ggcd z 1) as [g [a b]]. cbn [fst snd] in *.
  rewrite Z.gcd_1_r in Hg. subst g. destruct Hd as [-> Hb].
  assert (b = 1%Z) as -> by lia.
  f_equal. lia.
Qed.








(** *** The characters of a printed number *)










(** ** The conversion of the columns *)






(** ** The export *)



Local Close Scope N_scope.

(** * Part III: the properties of the specification *)

Section CleaningProperties.
Context {U : Unicode}.

(** C3. Deduplication works on the raw cells, before any coercion: a
    row is dropped exactly when an earlier row has the same cells, the
    rows that are kept are the first occurrences, in their original
    order and under their original labels; rows [A; A; B] give [A; B],
    and rows that differ in some raw cell are all kept. The table that
    [clean_data] returns consists of the cleaned images of these rows. *)
Theorem dedup_raw_first_occurrence (df : DataFrame) :
  wf df →
  let keep := negb <$> duplicated df in
  let dd := drop_duplicates df in
  (∀ i r b, rows df !! i = Some r → duplicated df !! i = Some b →
     b = true ↔ ∃ j, j < i ∧ rows df !! j = Some r) ∧
  index dd = select keep (index df) ∧
  rows dd = select keep (rows df) ∧
  rows dd `sublist_of` rows df ∧
  NoDup (rows dd) ∧
  (∀ r, r ∈ rows df → r ∈ rows dd) ∧
  (NoDup (rows df) → dd = df) ∧
  (∀ a b, a ≠ b → rows df = [a; a; b] → rows dd = [a; b]) ∧
  (∀ df', clean_data df = Ok df' →
     index df' = index dd ∧
     rows df' = zip_with clean_cell (columns df) <$> rows dd).
Proof.
  intros Hwf keep dd.
  assert (rows dd = select keep (rows df)) as Hrows by apply rows_loc_mask.
  split_and!.
  - intros i r b Hr Hb. split.
    + intros ->. by eapply dup_scan_spec in Hb as [[?%elem_of_nil|?] _]; eauto.
    + intros Hj. eapply dup_scan_spec; [done..|by right].
  - done.
  - done.
  - rewrite Hrows. apply select_sublist.
  - rewrite Hrows. apply first_occurrences_NoDup.
  - intros r Hr. rewrite Hrows.
    by destruct (first_occurrences_complete [] _ _ Hr) as [?%elem_of_nil|?].
  - by apply drop_duplicates_NoDup.
  - intros a b Hab Hdf. rewrite Hrows. unfold keep, duplicated. rewrite Hdf.
    simpl. rewrite bool_decide_eq_true_2 by left.
    rewrite bool_decide_eq_false_2; [done|].
    by intros ->%list_elem_of_singleton.
  - intros df' Hc. split; [|by apply clean_data_rows].
    by apply clean_data_Ok in Hc as [_ ->].
Qed.

(** C5. Numeric coercion is a total function: every designated numeric
    column that is present becomes a numeric column of the same length
    in which a string that parses holds its number, and a string that
    does not parse holds the missing marker; the column ["2020"; "abc";
    ""] becomes [2020; missing; missing]. *)
Theorem numeric_coercion_degrades (df : DataFrame) (col : pystr) (s : Series) :
  wf df → col ∈ numeric_cols →
  getitem (drop_duplicates df) col = Some s →
  getitem (coerce_numeric (drop_duplicates df)) col
    = Some (Numeric (coerce_cell <$> values s)) ∧
  (∀ i t, values s !! i = Some (Str t) →
     (coerce_cell <$> values s) !! i = Some (floatify t)) ∧
  (∀ df', clean_data df = Ok df' →
     getitem df' col = Some (Numeric (coerce_cell <$> values s))) ∧
  to_numeric (Object [Str (lit "2020"); Str (lit "abc"); Str []])
    = Numeric [Some (Finite 2020); None; None].
Proof.
  intros Hwf Hcol Hs. repeat split.
  - rewrite getitem_coerce_numeric by by apply wf_loc_mask.
    rewrite Hs. simpl. rewrite decide_True by done.
    by rewrite values_to_numeric.
  - intros i t Hi. by rewrite list_lookup_fmap, Hi.
  - intros df' Hc. rewrite (getitem_clean_data df) by done.
    rewrite Hs. simpl. unfold clean_series. rewrite decide_True by done.
    by rewrite values_to_numeric.
Qed.

(** C9. [clean_data] keeps the column names and their order, and a
    column that is in neither designated set comes out as the input
    column restricted to the rows that survive deduplication. *)
Theorem clean_data_frame (df df' : DataFrame) :
  wf df → clean_data df = Ok df' →
  columns df' = columns df ∧
  ∀ col s, col ∉ numeric_cols → col ∉ text_cols →
    getitem df col = Some s →
    getitem df' col = Some (select_series (negb <$> duplicated df) s).
Proof.
  intros Hwf Hc. split; [by apply clean_data_columns|].
  intros col s Hn Ht Hs. rewrite (getitem_clean_data df) by done.
  unfold drop_duplicates. rewrite getitem_loc_mask, Hs. simpl.
  unfold clean_series. by rewrite !decide_False.
Qed.

Context {L : UnicodeLaws U}.

(** C2 (amended). In every table that [clean_data] returns, a designated
    numeric column holds numbers and missing markers only, a designated
    text column holds trimmed, upper-cased strings and missing markers
    only, and the rows are the cleaned images of pairwise distinct rows
    of the input. *)
Theorem clean_table_invariant (df df' : DataFrame) :
  wf df → clean_data df = Ok df' →
  (∀ col s, col ∈ numeric_cols → getitem df' col = Some s →
     ∃ v, s = Numeric v) ∧
  (∀ col s c, col ∈ text_cols → getitem df' col = Some s → c ∈ values s →
     c = NaN ∨ ∃ t, c = Str t ∧ str_strip t = t ∧ str_upper t = t) ∧
  NoDup (rows (drop_duplicates df)) ∧
  rows df' = zip_with clean_cell (columns df) <$> rows (drop_duplicates df).
Proof.
  intros Hwf Hc. repeat split.
  - intros col s Hcol. rewrite (getitem_clean_data df) by done.
    destruct (getitem (drop_duplicates df) col) as [s0|]; [|done].
    simpl. intros [= <-]. unfold clean_series. rewrite decide_True by done.
    rewrite values_to_numeric. eauto.
  - intros col s c Hcol. rewrite (getitem_clean_data df) by done.
    destruct (getitem (drop_duplicates df) col) as [s0|]; [|done].
    simpl. intros [= <-]. unfold clean_series.
    rewrite decide_False by (intros ?; by eapply text_numeric_disjoint).
    rewrite decide_True by done. simpl.
    intros (c0 & -> & _)%list_elem_of_fmap.
    destruct (normalize_cell_shape c0) as [->|(t & _ & ->)]; [by left|].
    right. eexists. split; [done|]. split.
    + apply normal_form_strip.
    + apply str_upper_idem.
  - rewrite rows_drop_duplicates. apply first_occurrences_NoDup.
  - by apply clean_data_rows.
Qed.

(** C1 (amended). Running [clean_data] on a table it returned changes no
    cell: the result is that table without the rows that coercion and
    normalization made identical to an earlier row, and it is that table
    itself when no two of its rows are identical. *)
Theorem clean_data_twice (df df1 : DataFrame) :
  wf df → clean_data df = Ok df1 →
  clean_data df1 = Ok (drop_duplicates df1) ∧
  (NoDup (rows df1) → clean_data df1 = Ok df1).
Proof.
  intros Hwf Hc.
  pose proof (clean_data_wf _ _ Hwf Hc) as Hwf1.
  assert (clean_data df1 = Ok (drop_duplicates df1)) as Hre.
  { rewrite clean_data_spec by apply Hwf1. cbv zeta.
    apply clean_data_Ok in Hc as [_ Hdf1]; [|done].
    assert (data df1 = transform clean_series (data (drop_duplicates df)))
      as Hdata by by rewrite Hdf1.
    clear Hdf1. set (m := negb <$> duplicated df1).
    assert (data (drop_duplicates df1) =
            transform (λ n s, select_series m (clean_series n s))
              (data (drop_duplicates df))) as Hd.
    { unfold drop_duplicates at 1. rewrite data_loc_mask. fold m.
      by rewrite Hdata, transform_compose. }
    rewrite Hd.
    assert (text_ready
              (transform (λ n s, select_series m (clean_series n s))
                 (data (drop_duplicates df))) text_cols = true) as ->.
    { apply forallb_forall. intros col Hcol%list_elem_of_In.
      rewrite lookup_col_transform.
      destruct (lookup_col col (data (drop_duplicates df))) as [s|]; [|done].
      simpl. unfold clean_series.
      rewrite decide_False by (intros ?; by eapply text_numeric_disjoint).
      rewrite decide_True by done. simpl.
      by rewrite select_fmap, existsb_is_num_normalize. }
    f_equal. rewrite transform_compose.
    rewrite (transform_ext _ (λ n s, select_series m (clean_series n s)))
      by (intros; apply clean_series_select_idem).
    rewrite <- Hd. by destruct (drop_duplicates df1). }
  split; [done|].
  intros Hnd. by rewrite Hre, drop_duplicates_NoDup.
Qed.

(** C10. [clean_data] does not write into its argument: whatever the
    outcome, the frame behind the argument, and every other object that
    existed before the call, is unchanged; deduplication creates a new
    object, the assignments of both loops go to that object, and it is
    returned holding the cleaned table. *)
Theorem clean_data_preserves_input (σ σ' : gmap ref DataFrame) (r : ref)
    (df : DataFrame) (res : result ref) :
  σ !! r = Some df →
  clean_data_cmd r σ = (res, σ') →
  σ' !! r = Some df ∧
  (∀ r' d, σ !! r' = Some d → σ' !! r' = Some d) ∧
  match res with
  | Ok r1 => σ !! r1 = None ∧
             ∃ df1, clean_data df = Ok df1 ∧ σ' !! r1 = Some df1
  | Raise e => clean_data df = Raise e
  end.
Proof.
  intros Hr Hrun.
  destruct (clean_data_cmd_spec r df σ Hr) as (y & Hspec & Hy).
  rewrite Hspec in Hrun. injection Hrun as <- <-.
  assert (σ !! fresh (dom σ) = None) as Hfresh
    by apply not_elem_of_dom, is_fresh.
  assert (∀ r' d, σ !! r' = Some d → <[fresh (dom σ) := y]> σ !! r' = Some d)
    as Hframe.
  { intros r' d Hd. rewrite lookup_insert_ne; [done|]. congruence. }
  split; [by apply Hframe|]. split; [done|].
  destruct (clean_data df) as [df1|e]; [|done].
  split; [done|]. exists df1. split; [done|].
  by rewrite (Hy df1 eq_refl), lookup_insert_eq.
Qed.
End CleaningProperties.

Section LoaderProperties.
Context {P : Platform}.

(** C6. The upload loader decodes with the detected encoding first. When
    that attempt raises [UnicodeDecodeError], the error is caught and the
    buffer is decoded once more, as Latin-1; when this second attempt
    raises, the cause is shown with [st.error], the loader returns [None],
    and nothing is tried again. Any other exception of the first attempt
    leaves the loader at once. A run makes two decoding attempts at
    most. *)
Theorem single_latin1_fallback (raw : list byte) :
  let enc := chardet_detect raw in
  let res := (load_uploaded_file raw []).1 in
  let log := (load_uploaded_file raw []).2 in
  (bytes_decode enc raw = Raise UnicodeDecodeError →
     decodes log = [enc; Some latin1]) ∧
  match first_attempt raw with
  | Ok df => res = Ok (Some df) ∧ decodes log = [enc] ∧ errors log = []
  | Raise e =>
      if bool_decide (e = UnicodeDecodeError) then
        decodes log = [enc; Some latin1] ∧
        match fallback_attempt raw with
        | Ok df => res = Ok (Some df) ∧ errors log = []
        | Raise e' => res = Ok None ∧ errors log = [e']
        end
      else res = Raise e ∧ decodes log = [enc] ∧ errors log = []
  end ∧
  length (decodes log) ≤ 2.
Proof.
  cbv zeta. rewrite load_uploaded_file_run. cbv zeta.
  unfold first_attempt, fallback_attempt.
  destruct (bytes_decode (chardet_detect raw) raw) as [t|e] eqn:Hd;
    cbn [mbind result_bind].
  - destruct (read_csv t _) as [df|e]; [repeat split; simpl; done || lia|].
    case_bool_decide; [|repeat split; simpl; done || lia].
    destruct (read_csv (decode_latin1 raw) _); repeat split; simpl; done || lia.
  - case_bool_decide as He.
    + destruct (read_csv (decode_latin1 raw) _); repeat split; simpl; done || lia.
    + repeat split; simpl; try done; try lia. by intros [= ->].
Qed.
End LoaderProperties.



(** * Part IV: further properties of the program *)

(** ** More on deduplication and cleaning *)

Lemma elem_of_select {A} (mask : list bool) (l : list A) x :
  x ∈ select mask l ↔ ∃ i, mask !! i = Some true ∧ l !! i = Some x.
Proof.
  revert l. induction mask as [|b mask IH]; intros [|y l]; simpl.
  - split; [by intros ?%elem_of_nil | by intros (i & ? & ?)].
  - split; [by intros ?%elem_of_nil | by intros (i & ? & ?)].
  - split; [by intros ?%elem_of_nil | by intros (i & ? & ?)].
  - destruct b.
    + rewrite elem_of_cons, IH. split.
      * intros [->|(i & ? & ?)]; [by exists 0 | by exists (S i)].
      * intros ([|i] & Hm & Hl); simpl in *; [left; congruence | right; eauto].
    + rewrite IH. split.
      * intros (i & ? & ?). by exists (S i).
      * intros ([|i] & Hm & Hl); simpl in *; [done | eauto].
Qed.

Lemma length_first_occurrences seen rs :
  length (first_occurrences seen rs) ≤ length rs ∧
  (length (first_occurrences seen rs) = length rs ↔
     NoDup rs ∧ ∀ r, r ∈ rs → r ∉ seen).
Proof.
  revert seen. induction rs as [|r rs IH]; intros seen.
  - split; [done|]. split; [|done]. intros _. split; [constructor|].
    by intros r ?%elem_of_nil.
  - rewrite first_occurrences_cons. case_bool_decide as Hs; simpl.
    + destruct (IH seen) as [Hle _]. split; [lia|]. split; [lia|].
      intros [_ Hfresh]. exfalso. apply (Hfresh r); [left | done].
    + destruct (IH (r :: seen)) as [Hle Heq]. split; [lia|]. split.
      * intros [= Hlen]. apply Heq in Hlen as [Hnd Hfresh]. split.
        -- constructor; [|done]. intros Hr. apply (Hfresh r Hr). left.
        -- intros r' [->|Hr']%elem_of_cons; [done|].
           intros Hin. apply (Hfresh r' Hr'). by right.
      * intros [[Hr Hnd]%NoDup_cons Hfresh]. f_equal. apply Heq. split; [done|].
        intros r' Hr' [->|Hin]%elem_of_cons; [done|].
        by apply (Hfresh r'); [right|].
Qed.

(** The position of a column in a frame gives the position of its cells
    in the rows. *)
Lemma row_at_column df col s i :
  (col, s) ∈ data df → nth i (values s) NaN ∈ row_at df i.
Proof.
  intros Hin. unfold row_at. apply list_elem_of_fmap. by exists (col, s).
Qed.

Lemma lookup_col_position col d s :
  lookup_col col d = Some s → ∃ k, d !! k = Some (col, s).
Proof. intros Hs%lookup_col_Some. by apply list_elem_of_lookup_1. Qed.

(** Two equal rows agree on every column. *)
Lemma equal_rows_equal_cells df i j k col s :
  row_at df i = row_at df j → data df !! k = Some (col, s) →
  nth i (values s) NaN = nth j (values s) NaN.
Proof.
  intros Heq Hk.
  assert (row_at df i !! k = Some (nth i (values s) NaN)) as Hi
    by (unfold row_at; by rewrite list_lookup_fmap, Hk).
  assert (row_at df j !! k = Some (nth j (values s) NaN)) as Hj
    by (unfold row_at; by rewrite list_lookup_fmap, Hk).
  rewrite Heq, Hj in Hi. by injection Hi.
Qed.

(** Every cell of a column occurs in a row that the duplicate scan keeps. *)
Lemma kept_occurrence df col s i c :
  wf df → getitem df col = Some s → values s !! i = Some c →
  ∃ j, duplicated df !! j = Some false ∧ values s !! j = Some c.
Proof.
  intros Hwf Hs. destruct (lookup_col_position _ _ _ Hs) as [k Hk].
  assert (length (values s) = length (index df)) as Hlen.
  { destruct Hwf as [_ Hl].
    by apply (Forall_lookup_1 _ _ _ _ Hl Hk). }
  revert c. induction (lt_wf i) as [i _ IH]. intros c Hi.
  assert (i < length (index df)) as Hlt
    by (rewrite <- Hlen; by eapply lookup_lt_Some).
  pose proof (rows_lookup df i Hwf Hlt) as Hrow.
  destruct (duplicated df !! i) as [b|] eqn:Hb.
  2:{ apply lookup_ge_None in Hb. unfold duplicated in Hb.
      rewrite length_dup_scan, length_rows in Hb by done. lia. }
  destruct b; [|by exists i].
  assert (true = true) as Ht by done.
  apply (dup_scan_spec [] (rows df) i (row_at df i) true Hrow Hb) in Ht
    as [?%elem_of_nil|(j & Hj & Hrj)]; [done|].
  assert (j < length (index df)) as Hjlt by lia.
  rewrite (rows_lookup df j Hwf Hjlt) in Hrj. injection Hrj as Hrj.
  apply (IH j Hj).
  rewrite <- (nth_lookup_Some _ _ NaN _ Hi).
  rewrite <- (equal_rows_equal_cells df j i k col s Hrj Hk).
  destruct (values s !! j) as [x|] eqn:Hx.
  - by rewrite (nth_lookup_Some _ _ NaN _ Hx).
  - apply lookup_ge_None in Hx. lia.
Qed.

Lemma existsb_elem_of {A} (f : A → bool) (l k : list A) :
  (∀ x, x ∈ l ↔ x ∈ k) → existsb f l = existsb f k.
Proof.
  intros H. apply eq_true_iff_eq. rewrite !existsb_exists.
  split; intros (x & Hx%list_elem_of_In & Hf); exists x;
    (split; [apply list_elem_of_In, H, Hx | done]).
Qed.

Lemma wf_getitem_length df col s :
  wf df → getitem df col = Some s → length (values s) = length (index df).
Proof.
  intros [_ Hl] Hs%lookup_col_Some.
  by apply (proj1 (Forall_forall _ _) Hl (col, s)).
Qed.

Lemma drop_duplicates_values df col s :
  wf df → getitem df col = Some s →
  getitem (drop_duplicates df) col
    = Some (select_series (negb <$> duplicated df) s) ∧
  ∀ c, c ∈ values (select_series (negb <$> duplicated df) s) ↔ c ∈ values s.
Proof.
  intros Hwf Hs. split.
  - unfold drop_duplicates. by rewrite getitem_loc_mask, Hs.
  - intros c. rewrite values_select_series, elem_of_select. split.
    + intros (i & _ & Hi). by eapply list_elem_of_lookup_2.
    + intros (i & Hi)%list_elem_of_lookup_1.
      destruct (kept_occurrence df col s i c Hwf Hs Hi) as (j & Hj & Hc).
      exists j. split; [|done]. by rewrite list_lookup_fmap, Hj.
Qed.

(** X1. Deduplication loses no value: every column of the deduplicated
    frame holds exactly the values that the column held before, in their
    order, each of them possibly fewer times, and one for every row that
    is kept. *)
Theorem drop_duplicates_column_values (df : DataFrame) (col : pystr) (s : Series) :
  wf df → getitem df col = Some s →
  ∃ s', getitem (drop_duplicates df) col = Some s' ∧
        values s' `sublist_of` values s ∧
        (∀ c, c ∈ values s' ↔ c ∈ values s) ∧
        length (values s') = length (index (drop_duplicates df)).
Proof.
  intros Hwf Hs.
  destruct (drop_duplicates_values df col s Hwf Hs) as [Hs' Hv].
  eexists. split; [exact Hs'|]. split_and!.
  - rewrite values_select_series. apply select_sublist.
  - done.
  - apply wf_getitem_length with (col := col); [|done].
    by apply wf_loc_mask.
Qed.

Lemma str_ok_drop_duplicates df col s :
  wf df → getitem df col = Some s →
  ∃ s', getitem (drop_duplicates df) col = Some s' ∧ str_ok s' = str_ok s.
Proof.
  intros Hwf Hs.
  destruct (drop_duplicates_values df col s Hwf Hs) as [Hs' Hv].
  eexists. split; [exact Hs'|].
  destruct s as [v|v]; simpl in *; [done|].
  by rewrite (existsb_elem_of is_num _ v Hv), (existsb_elem_of is_str _ v Hv).
Qed.

Lemma text_ready_false d cols :
  text_ready d cols = false ↔
  ∃ col s, col ∈ cols ∧ lookup_col col d = Some s ∧ str_ok s = false.
Proof.
  unfold text_ready. induction cols as [|c cols IH]; simpl.
  - split; [done|]. by intros (? & ? & ?%elem_of_nil & _).
  - rewrite andb_false_iff, IH. split.
    + intros [Hc|(col & s & Hin & Hs & Hok)].
      * destruct (lookup_col c d) as [s|] eqn:Hs; [|done].
        exists c, s. split; [left|done].
      * exists col, s. split; [by right|done].
    + intros (col & s & [->|Hin]%elem_of_cons & Hs & Hok).
      * left. by rewrite Hs.
      * right. eauto.
Qed.

Section CleaningErrors.
Context {U : Unicode}.

(** X2. The only exception that [clean_data] raises is [AttributeError],
    and it raises it exactly when some designated text column of the input
    is of a numeric dtype, or is an [object] column that holds numbers and
    no string. *)
Theorem clean_data_raises_attribute_error (df : DataFrame) :
  wf df →
  (∀ e, clean_data df = Raise e → e = AttributeError) ∧
  (clean_data df = Raise AttributeError ↔
     ∃ col s, col ∈ text_cols ∧ getitem df col = Some s ∧ str_ok s = false).
Proof.
  intros Hwf. rewrite clean_data_spec by apply Hwf. cbv zeta.
  destruct (text_ready _ text_cols) eqn:Hr.
  - split; [done|]. split; [done|].
    intros (col & s & Hcol & Hs & Hok).
    destruct (str_ok_drop_duplicates df col s Hwf Hs) as (s' & Hs' & Hok').
    assert (text_ready (data (drop_duplicates df)) text_cols = false) as Hf.
    { apply text_ready_false. exists col, s'. by rewrite Hok'. }
    congruence.
  - split; [by intros e [= <-]|]. split; [|done]. intros _.
    apply text_ready_false in Hr as (col & s' & Hcol & Hs' & Hok').
    destruct (getitem df col) as [s|] eqn:Hs.
    + destruct (str_ok_drop_duplicates df col s Hwf Hs) as (s'' & Hs'' & Hok).
      unfold getitem in Hs''. rewrite Hs' in Hs''. injection Hs'' as <-.
      exists col, s. by rewrite <- Hok.
    + unfold drop_duplicates in Hs'. fold (getitem (loc_mask df (negb <$> duplicated df)) col) in Hs'.
      by rewrite getitem_loc_mask, Hs in Hs'.
Qed.

(** X3. The table that [clean_data] returns has the columns of the input
    and at most its rows, and it has as many rows as the input exactly
    when no two rows of the input are identical. *)
Theorem clean_data_shape (df df' : DataFrame) :
  wf df → clean_data df = Ok df' →
  (shape df').2 = (shape df).2 ∧
  (shape df').1 ≤ (shape df).1 ∧
  ((shape df').1 = (shape df).1 ↔ NoDup (rows df)).
Proof.
  intros Hwf Hc. pose proof (clean_data_wf _ _ Hwf Hc) as Hwf'.
  pose proof (clean_data_columns _ _ Hwf Hc) as Hcols.
  pose proof (clean_data_rows _ _ Hwf Hc) as Hrows.
  unfold shape. simpl. split.
  - apply (f_equal length) in Hcols. unfold columns in Hcols.
    by rewrite !length_fmap in Hcols.
  - rewrite <- (length_rows df'), <- (length_rows df) by done.
    rewrite Hrows, length_fmap, rows_drop_duplicates.
    destruct (length_first_occurrences [] (rows df)) as [Hle Heq].
    split; [done|]. rewrite Heq. split; [tauto|].
    intros Hnd. split; [done|]. intros r _. apply not_elem_of_nil.
Qed.

(** X4. Cleaning fills in no missing value: the table that [clean_data]
    returns counts at least as many missing values as the deduplicated
    input. *)
Theorem clean_data_isnull_count (df df' : DataFrame) :
  wf df → clean_data df = Ok df' →
  isnull_count (drop_duplicates df) ≤ isnull_count df'.
Proof.
  intros Hwf [_ ->]%clean_data_Ok; [|done].
  unfold isnull_count. cbn [data].
  generalize (data (drop_duplicates df)) as d.
  induction d as [|[n s] d IH]; [done|].
  unfold transform in *. rewrite !fmap_cons. cbn [sum_list sum_list_with fst snd].
  apply Nat.add_le_mono; [|done].
  rewrite values_clean_series.
  induction (values s) as [|c l IHl]; [done|].
  rewrite fmap_cons, !filter_cons.
  assert (clean_cell n NaN = NaN) as Hnan.
  { unfold clean_cell. by repeat case_decide. }
  destruct c; try rewrite Hnan; repeat case_decide; simpl in *; try done; lia.
Qed.
End CleaningErrors.

(** ** More on the loaders *)

Lemma count_char_app c s t : count_char c (s ++ t) = count_char c s + count_char c t.
Proof.
  unfold count_char, pystr. induction s as [|d s IH]; [done|].
  rewrite <- app_comm_cons, !filter_cons. case_decide; simpl; lia.
Qed.

Lemma count_char_other c d s : d ≠ c → count_char c (d :: s) = count_char c s.
Proof. intros Hd. unfold count_char, pystr. by rewrite filter_cons, decide_False. Qed.

Lemma choose_delimiter_counts s t :
  count_char comma s = count_char comma t →
  count_char semicolon s = count_char semicolon t →
  choose_delimiter s = choose_delimiter t.
Proof. unfold choose_delimiter. by intros -> ->. Qed.

Lemma readline_no_lf h : 10%N ∉ h → readline h = h.
Proof.
  induction h as [|c h IH]; [done|]. intros Hh. simpl.
  apply not_elem_of_cons in Hh as [Hc Hh].
  destruct (N.eqb_spec c 10); [done|]. by rewrite IH.
Qed.

Lemma readline_app h rest : 10%N ∉ h → readline (h ++ rest) = h ++ readline rest.
Proof.
  induction h as [|c h IH]; [done|]. intros Hh. simpl.
  apply not_elem_of_cons in Hh as [Hc Hh].
  destruct (N.eqb_spec c 10); [done|]. by rewrite IH.
Qed.

Lemma readline_universal_app h rest :
  10%N ∉ h → 13%N ∉ h →
  readline_universal (h ++ rest) = h ++ readline_universal rest.
Proof.
  induction h as [|c h IH]; [done|]. intros Hlf Hcr. simpl.
  apply not_elem_of_cons in Hlf as [Hc Hlf].
  apply not_elem_of_cons in Hcr as [Hc' Hcr].
  destruct (N.eqb_spec c 10); [done|]. destruct (N.eqb_spec c 13); [done|].
  simpl. by rewrite IH.
Qed.

(** X5. Only the first line decides the delimiter: for a text with one
    line, or with lines that end in a line feed or in a carriage return
    and a line feed, both loaders choose the delimiter that the header
    alone gives, whatever follows it; so they agree on such texts. *)
Theorem first_line_decides (h rest : pystr) :
  10%N ∉ h → 13%N ∉ h →
  choose_delimiter (readline h) = choose_delimiter h ∧
  choose_delimiter (readline_universal h) = choose_delimiter h ∧
  choose_delimiter (readline (h ++ 10%N :: rest)) = choose_delimiter h ∧
  choose_delimiter (readline_universal (h ++ 10%N :: rest)) = choose_delimiter h ∧
  choose_delimiter (readline (h ++ 13%N :: 10%N :: rest)) = choose_delimiter h ∧
  choose_delimiter (readline_universal (h ++ 13%N :: 10%N :: rest)) = choose_delimiter h.
Proof.
  intros Hlf Hcr.
  assert (readline_universal h = h) as Hu
    by (rewrite <- (app_nil_r h) at 1; rewrite readline_universal_app by done;
        simpl; apply app_nil_r).
  rewrite readline_no_lf, Hu by done.
  rewrite !readline_app, !readline_universal_app by done. simpl.
  split_and!; try done; apply choose_delimiter_counts;
    rewrite count_char_app, !count_char_other by done; apply Nat.add_0_r.
Qed.

(** X6. On a text whose first line ends in a bare carriage return the two
    loaders part: the file loader still chooses from the header alone,
    while the upload loader counts the separators of everything up to the
    first line feed. *)
Theorem bare_carriage_return (h rest : pystr) :
  10%N ∉ h → 13%N ∉ h →
  choose_delimiter (readline_universal (h ++ 13%N :: rest)) = choose_delimiter h ∧
  choose_delimiter (readline (h ++ 13%N :: rest))
    = choose_delimiter (h ++ readline rest).
Proof.
  intros Hlf Hcr.
  rewrite readline_app, readline_universal_app by done. simpl. split.
  - apply choose_delimiter_counts;
      rewrite count_char_app, !count_char_other by done; apply Nat.add_0_r.
  - apply choose_delimiter_counts;
      by rewrite !count_char_app, count_char_other.
Qed.

Section LoaderEdges.
Context {P : Platform}.

(** X7. When [chardet] recognises no encoding, the upload loader raises
    [TypeError] from its first decoding attempt: the error is not caught,
    Latin-1 is not tried, the parser is not called and no message is
    shown. *)
Theorem load_uploaded_file_no_encoding (raw : list byte) :
  chardet_detect raw = None →
  load_uploaded_file raw [] = (Raise TypeError, [EvDecode None]).
Proof. intros Hd. rewrite load_uploaded_file_run. cbv zeta. by rewrite Hd. Qed.

(** X8. The upload loader returns [None] exactly when it has shown an
    error message, it shows one message at most, and a frame that it
    returns is the frame that its last call of the parser returned. *)
Theorem load_uploaded_file_outcome (raw : list byte) :
  let res := (load_uploaded_file raw []).1 in
  let log := (load_uploaded_file raw []).2 in
  (res = Ok None ↔ errors log ≠ []) ∧
  length (errors log) ≤ 1 ∧
  (∀ df, res = Ok (Some df) →
     ∃ text d, last log = Some (EvReadCsv text d) ∧ read_csv text d = Ok df).
Proof.
  cbv zeta. rewrite load_uploaded_file_run. cbv zeta.
  destruct (bytes_decode (chardet_detect raw) raw) as [t|e] eqn:Hd.
  - destruct (read_csv t _) as [df|e] eqn:Hr.
    + split_and!; simpl; [done|lia|]. intros ? [= <-]. eauto.
    + case_bool_decide; [|split_and!; simpl; [done|lia|done]].
      destruct (read_csv (decode_latin1 raw) _) as [df|e'] eqn:Hr';
        split_and!; simpl; try done; try lia.
      intros ? [= <-]. eauto.
  - case_bool_decide; [|split_and!; simpl; [done|lia|done]].
    destruct (read_csv (decode_latin1 raw) _) as [df|e'] eqn:Hr';
      split_and!; simpl; try done; try lia.
    intros ? [= <-]. eauto.
Qed.
End LoaderEdges.

(** ** The loading block of the script *)

Section ScriptFacts.
Context {P : Platform} {U : Unicode}.

Lemma main_load_upload_run raw :
  main_load (Some raw) [] =
    match (load_uploaded_file raw []).1 with
    | Ok (Some df) =>
        (match clean_data df with Ok d => Ok (Some d) | Raise e => Raise e end,
         (FromLoader <$> (load_uploaded_file raw []).2) ++ [Success])
    | Ok None => (Raise AttributeError, FromLoader <$> (load_uploaded_file raw []).2)
    | Raise e => (Raise e, FromLoader <$> (load_uploaded_file raw []).2)
    end.
Proof.
  unfold main_load, load_data, run_loader, notify, lift, clean_loaded,
    mbind, st_bind, mret, st_ret. simpl.
  destruct (load_uploaded_file raw []).1 as [[df|]|e]; simpl; try done.
  by destruct (clean_data df).
Qed.

Lemma main_load_default_run :
  main_load None [] =
    match detect_file_properties archivo with
    | Ok r =>
        match read_csv_file archivo r.1 r.2 with
        | Ok df =>
            (match clean_data df with Ok d => Ok (Some d) | Raise e => Raise e end,
             [Success])
        | Raise e => (Ok None, [DefaultError e])
        end
    | Raise e => (Ok None, [DefaultError e])
    end.
Proof.
  unfold main_load, load_data, try_except, notify, lift, clean_loaded,
    mbind, st_bind, mret, st_ret. simpl.
  destruct (detect_file_properties archivo) as [r|e]; simpl; [|done].
  destruct (read_csv_file archivo r.1 r.2) as [df|e]; simpl; [|done].
  by destruct (clean_data df).
Qed.

(** X9. An upload that cannot be loaded does not stop the script: when
    the upload loader returns [None], having shown its message, the script
    goes on to [clean_data(None)] and ends with an [AttributeError]; it
    shows no success banner and does not fall back to the default file. *)
Theorem failed_upload_reaches_clean_data (raw : list byte) :
  (load_uploaded_file raw []).1 = Ok None →
  (main_load (Some raw) []).1 = Raise AttributeError ∧
  (main_load (Some raw) []).2 = FromLoader <$> (load_uploaded_file raw []).2 ∧
  (∃ e, errors (load_uploaded_file raw []).2 = [e]) ∧
  default_errors (main_load (Some raw) []).2 = [].
Proof.
  intros Hnone. rewrite main_load_upload_run, Hnone. simpl. split_and!; try done.
  - revert Hnone. rewrite load_uploaded_file_run. cbv zeta.
    destruct (bytes_decode (chardet_detect raw) raw) as [t|e];
      [destruct (read_csv t _) as [df|e]; [done|]|];
      (case_bool_decide; [|done]);
      destruct (read_csv (decode_latin1 raw) _); simpl; try done; eauto.
  - induction ((load_uploaded_file raw []).2) as [|ev l IH]; [done|]. by simpl.
Qed.

(** X10. Without an upload, no failure of the loading block escapes: when
    the default file cannot be read, decoded or parsed, the error is shown
    once and the script stops before [clean_data]; an exception that
    leaves the script comes from [clean_data] on the parsed file. The
    upload loader, with its Latin-1 fallback, is not used. *)
Theorem default_file_failure_stops :
  let res := (main_load None []).1 in
  let log := (main_load None []).2 in
  (res = Ok None ↔ ∃ e, log = [DefaultError e]) ∧
  (∀ e, log = [DefaultError e] →
     detect_file_properties archivo = Raise e ∨
     ∃ r, detect_file_properties archivo = Ok r ∧
          read_csv_file archivo r.1 r.2 = Raise e) ∧
  (∀ e, res = Raise e →
     ∃ r df, detect_file_properties archivo = Ok r ∧
             read_csv_file archivo r.1 r.2 = Ok df ∧
             clean_data df = Raise e ∧ log = [Success]) ∧
  loader_events log = [].
Proof.
  cbv zeta. rewrite main_load_default_run.
  destruct (detect_file_properties archivo) as [r|e] eqn:Hd.
  - destruct (read_csv_file archivo r.1 r.2) as [df|e] eqn:Hr.
    + destruct (clean_data df) as [d|e] eqn:Hc; simpl; split_and!; try done.
      * split; [done|]. by intros [? ?].
      * split; [done|]. by intros [? ?].
      * intros ? [= <-]. by exists r, df.
    + simpl. split_and!; try done.
      * split; eauto.
      * intros ? [= <-]. right. eauto.
  - simpl. split_and!; try done.
    + split; eauto.
    + intros ? [= <-]. by left.
Qed.
End ScriptFacts.

(** ** The year column *)

Lemma number_leb_refl x : number_leb x x = true.
Proof. destruct x as [q|[]]; simpl; [|done..]. apply Qle_bool_iff, Qle_refl. Qed.

Lemma number_leb_trans x y z :
  number_leb x y = true → number_leb y z = true → number_leb x z = true.
Proof.
  destruct x as [p|[]], y as [q|[]], z as [r|[]]; simpl; try done.
  rewrite !Qle_bool_iff. apply Qle_trans.
Qed.

Lemma number_leb_total x y : number_leb x y = true ∨ number_leb y x = true.
Proof.
  destruct x as [p|[]], y as [q|[]]; simpl; auto.
  rewrite !Qle_bool_iff. destruct (Qlt_le_dec p q); [left; by apply Qlt_le_weak | by right].
Qed.

Lemma reduce_None f v : reduce f v = None ↔ ∀ o, o ∈ v → o = None.
Proof.
  induction v as [|[x|] v IH]; simpl.
  - split; [by intros _ o ?%elem_of_nil | done].
  - split; [by destruct (reduce f v)|]. intros H. by specialize (H (Some x) ltac:(left)).
  - rewrite IH. split.
    + intros H o [->|?]%elem_of_cons; auto.
    + intros H o Ho. apply H. by right.
Qed.

Lemma series_min_spec v m :
  series_min v = Some m →
  Some m ∈ v ∧ ∀ x, Some x ∈ v → number_leb m x = true.
Proof.
  unfold series_min. revert m. induction v as [|[x|] v IH]; intros m; simpl.
  - done.
  - destruct (reduce number_min v) as [y|] eqn:Hy.
    + intros [= <-]. destruct (IH y eq_refl) as [Hin Hle].
      unfold number_min. destruct (number_leb x y) eqn:Hxy.
      * split; [left|]. intros z [[= ->]|Hz]%elem_of_cons; [apply number_leb_refl|].
        eapply number_leb_trans; [done | by apply Hle].
      * split; [by right|]. intros z [[= ->]|Hz]%elem_of_cons; [|by apply Hle].
        destruct (number_leb_total x y); congruence.
    + intros [= <-]. split; [left|].
      intros z [[= ->]|Hz]%elem_of_cons; [apply number_leb_refl|].
      by apply (proj1 (reduce_None _ _) Hy) in Hz.
  - intros Hm. destruct (IH m Hm) as [Hin Hle]. split; [by right|].
    intros z [[=]|Hz]%elem_of_cons. by apply Hle.
Qed.

Lemma series_max_spec v m :
  series_max v = Some m →
  Some m ∈ v ∧ ∀ x, Some x ∈ v → number_leb x m = true.
Proof.
  unfold series_max. revert m. induction v as [|[x|] v IH]; intros m; simpl.
  - done.
  - destruct (reduce number_max v) as [y|] eqn:Hy.
    + intros [= <-]. destruct (IH y eq_refl) as [Hin Hle].
      unfold number_max. destruct (number_leb x y) eqn:Hxy.
      * split; [by right|]. intros z [[= ->]|Hz]%elem_of_cons; [done|by apply Hle].
      * split; [left|]. intros z [[= ->]|Hz]%elem_of_cons; [apply number_leb_refl|].
        eapply number_leb_trans; [by apply Hle|].
        destruct (number_leb_total x y); congruence.
    + intros [= <-]. split; [left|].
      intros z [[= ->]|Hz]%elem_of_cons; [apply number_leb_refl|].
      by apply (proj1 (reduce_None _ _) Hy) in Hz.
  - intros Hm. destruct (IH m Hm) as [Hin Hle]. split; [by right|].
    intros z [[=]|Hz]%elem_of_cons. by apply Hle.
Qed.

(** Truncation towards zero moves a number by less than one. *)
Lemma trunc_near (q : Q) :
  let z := Z.quot (Qnum q) (Z.pos (Qden q)) in
  (inject_Z z - 1 < q)%Q ∧ (q < inject_Z z + 1)%Q.
Proof.
  destruct q as [n d]. simpl.
  pose proof (Z.quot_rem' n (Z.pos d)) as Hqr.
  pose proof (Z.rem_bound_abs n (Z.pos d) ltac:(lia)) as Hb.
  unfold Qlt, Qminus, Qplus, Qopp, inject_Z. simpl. split; nia.
Qed.

Lemma trunc_mono (p q : Q) :
  (p <= q)%Q →
  (Z.quot (Qnum p) (Z.pos (Qden p)) ≤ Z.quot (Qnum q) (Z.pos (Qden q)))%Z.
Proof.
  destruct p as [a b], q as [c d]. unfold Qle. simpl. intros Hle.
  rewrite <- (Z.quot_mul_cancel_r a (Z.pos b) (Z.pos d)) by lia.
  rewrite <- (Z.quot_mul_cancel_r c (Z.pos d) (Z.pos b)) by lia.
  rewrite (Z.mul_comm (Z.pos d) (Z.pos b)).
  apply Z.quot_le_mono; lia.
Qed.

(** X11. When the bounds of the year slider exist, every cell of the year
    column is a finite number, the lower bound is at most the upper bound,
    the sidebar shows the upper bound, and every year lies within less
    than one of the interval between the bounds; a year that is a whole
    number lies in that interval. *)
Theorem year_bounds_enclose (v : list (option number)) (ano_min ano_max : Z) :
  year_bounds v = inr (ano_min, ano_max) →
  (ano_min ≤ ano_max)%Z ∧
  ano_mas_reciente v = inr ano_max ∧
  ∀ x, Some x ∈ v →
    ∃ q, x = Finite q ∧
         (inject_Z ano_min - 1 < q)%Q ∧ (q < inject_Z ano_max + 1)%Q ∧
         (Qden q = 1%positive → (ano_min ≤ Qnum q ≤ ano_max)%Z).
Proof.
  unfold year_bounds, ano_mas_reciente.
  destruct (series_min v) as [[lo|?]|] eqn:Hmin; simpl; try done.
  destruct (series_max v) as [[hi|?]|] eqn:Hmax; simpl; try done.
  intros [= <- <-].
  destruct (series_min_spec v _ Hmin) as [Hlo_in Hlo].
  destruct (series_max_spec v _ Hmax) as [Hhi_in Hhi].
  split; [|split; [done|]].
  - apply trunc_mono. specialize (Hlo _ Hhi_in). simpl in Hlo.
    by apply Qle_bool_iff.
  - intros x Hx. pose proof (Hlo x Hx) as H1. pose proof (Hhi x Hx) as H2.
    destruct x as [q|[]]; simpl in *; try done.
    apply Qle_bool_iff in H1, H2. exists q. split; [done|].
    destruct (trunc_near lo) as [Hl _]. destruct (trunc_near hi) as [_ Hh].
    cbv zeta in *. split_and!.
    + eapply Qlt_le_trans; [exact Hl | exact H1].
    + eapply Qle_lt_trans; [exact H2 | exact Hh].
    + intros Hden. destruct q as [n d]. simpl in Hden. subst d.
      pose proof (trunc_mono _ _ H1) as M1. pose proof (trunc_mono _ _ H2) as M2.
      simpl in M1, M2. rewrite Z.quot_1_r in M1, M2. done.
Qed.

Section YearEdge.
Context {U : Unicode}.

(** X12. A year column without a single number that parses, and in
    particular the year column of a table without rows, makes the script
    fail after cleaning: the column is cleaned to missing markers only, and
    both [int(df['AÑO'].max())] in the sidebar and the bounds of the year
    slider raise [ValueError]. *)
Theorem no_year_raises_value_error (df df' : DataFrame) (s : Series) :
  wf df → clean_data df = Ok df' →
  getitem df ANO = Some s →
  (∀ c, c ∈ values s → coerce_cell c = None) →
  ∃ v, getitem df' ANO = Some (Numeric v) ∧
       (∀ o, o ∈ v → o = None) ∧
       ano_mas_reciente v = inl ValueError ∧
       year_bounds v = inl ValueError.
Proof.
  intros Hwf Hc Hs Hnone.
  destruct (drop_duplicates_values df ANO s Hwf Hs) as [Hs' Hv].
  set (s' := select_series (negb <$> duplicated df) s) in *.
  exists (coerce_cell <$> values s').
  assert (∀ o, o ∈ coerce_cell <$> values s' → o = None) as Hall.
  { intros o (c & -> & Hin)%list_elem_of_fmap. apply Hnone. by apply Hv. }
  split_and!; [|done|..].
  - rewrite (getitem_clean_data df) by done. rewrite Hs'. simpl.
    unfold clean_series. rewrite decide_True by by apply (bool_decide_unpack _).
    by rewrite values_to_numeric.
  - unfold ano_mas_reciente, series_max.
    by rewrite (proj2 (reduce_None number_max _) Hall).
  - unfold year_bounds, series_min.
    by rewrite (proj2 (reduce_None number_min _) Hall).
Qed.
End YearEdge.

(** ** The filters *)

Lemma select_select {A} (m1 m2 : list bool) (l : list A) :
  select (select m1 m2) (select m1 l) = select (zip_with andb m1 m2) l.
Proof.
  revert m2 l. induction m1 as [|b m1 IH]; intros [|c m2] [|x l]; simpl; try done;
    destruct b; try destruct c; simpl; rewrite ?IH; try done.
  all: try by destruct (select m1 m2).
  all: try by destruct (select m1 l).
Qed.

Lemma loc_mask_loc_mask df m1 m2 :
  loc_mask (loc_mask df m1) (select m1 m2) = loc_mask df (zip_with andb m1 m2).
Proof.
  unfold loc_mask. simpl. rewrite select_select. f_equal.
  rewrite <- list_fmap_compose. apply list_fmap_ext. intros i [n s] _.
  unfold prod_map. simpl. f_equal.
  destruct s; simpl; by rewrite select_select.
Qed.

Lemma eq_mask_select choice m s :
  eq_mask choice (select_series m s) = select m (eq_mask choice s).
Proof. unfold eq_mask. by rewrite values_select_series, select_fmap. Qed.

Lemma zip_andb_true_l n m : length m ≤ n → zip_with andb (replicate n true) m = m.
Proof.
  revert n. induction m as [|b m IH]; intros [|n] Hn; simpl in *; try done; try lia.
  rewrite IH; [done|lia].
Qed.

Lemma zip_andb_true_r n m : length m ≤ n → zip_with andb m (replicate n true) = m.
Proof.
  revert n. induction m as [|b m IH]; intros [|n] Hn; simpl in *; try done; try lia.
  rewrite andb_true_r, IH; [done|lia].
Qed.

Lemma length_eq_filter_mask df col choice sentinel :
  wf df → length (eq_filter_mask df col choice sentinel) = length (index df).
Proof.
  intros Hwf. unfold eq_filter_mask.
  destruct (getitem df col) as [s|] eqn:Hs; [|apply length_replicate].
  case_bool_decide; [apply length_replicate|].
  unfold eq_mask. rewrite length_fmap. by apply wf_getitem_length in Hs.
Qed.

Lemma length_year_filter_mask df choice :
  wf df → length (year_filter_mask df choice) = length (index df).
Proof.
  intros Hwf. unfold year_filter_mask.
  destruct (getitem df ANO) as [[v|v]|] eqn:Hs; try apply length_replicate.
  apply wf_getitem_length in Hs; [|done]. simpl in Hs. rewrite length_fmap in Hs.
  unfold ge_mask, le_mask. rewrite length_zip_with, !length_fmap. lia.
Qed.

(** One equality filter, applied to a table that is itself a selection
    of the rows of [df]. *)
Lemma filter_eq_spec df m col choice sentinel :
  wf df → length m = length (index df) →
  filter_eq df (loc_mask df m) col choice sentinel =
    Ok (loc_mask df (zip_with andb m (eq_filter_mask df col choice sentinel))).
Proof.
  intros Hwf Hm. unfold filter_eq, eq_filter_mask.
  rewrite getitem_columns, getitem_loc_mask.
  destruct (getitem df col) as [s|] eqn:Hs; simpl.
  - case_bool_decide; simpl.
    + by rewrite zip_andb_true_r by lia.
    + by rewrite eq_mask_select, loc_mask_loc_mask.
  - by rewrite zip_andb_true_r by lia.
Qed.

Lemma filter_year_spec df m choice :
  wf df → year_ready df → length m = length (index df) →
  filter_year df (loc_mask df m) choice =
    Ok (loc_mask df (zip_with andb m (year_filter_mask df choice))).
Proof.
  intros Hwf Hy Hm. unfold filter_year, year_filter_mask, year_ready in *.
  rewrite getitem_loc_mask.
  destruct (getitem df ANO) as [[v|v]|] eqn:Hs; simpl; [|done|].
  - unfold mret, result_ret. f_equal.
    set (rango := default _ _).
    assert (zip_with andb (ge_mask rango.1 (select m v)) (le_mask rango.2 (select m v))
            = select m (zip_with andb (ge_mask rango.1 v) (le_mask rango.2 v))) as ->
      by (unfold ge_mask, le_mask; by rewrite select_zip_with, !select_fmap).
    apply loc_mask_loc_mask.
  - unfold mret, result_ret. by rewrite zip_andb_true_r by lia.
Qed.

(** The filters as one selection: sieving what the previous filter has
    left amounts to testing all rows of the table at once. *)
Lemma apply_filters_run (df : DataFrame) (p : FilterParams) :
  wf df → year_ready df →
  apply_filters df p = Ok (loc_mask df (filter_mask df p)).
Proof.
  intros Hwf Hy.
  pose proof (length_eq_filter_mask df GENERO (genero p) Todos Hwf) as H1.
  pose proof (length_eq_filter_mask df PLATAFORMA (plataforma p) Todas Hwf) as H2.
  pose proof (length_year_filter_mask df (rango_anos p) Hwf) as H3.
  unfold apply_filters.
  rewrite <- (loc_mask_true df (length (index df)) Hwf) at 2 by done.
  rewrite filter_eq_spec by (done || apply length_replicate).
  cbn [mbind result_bind].
  rewrite filter_eq_spec
    by (done || (rewrite length_zip_with, length_replicate; lia)).
  cbn [mbind result_bind].
  rewrite filter_year_spec
    by (done || (rewrite !length_zip_with, length_replicate; lia)).
  unfold filter_mask. by rewrite zip_andb_true_l by lia.
Qed.

(** X13. The three filters of the exploration tab, applied one after the
    other to what the one before has left, select exactly the rows of the
    table that pass all three tests, in their order; a filter whose
    widget shows its sentinel, or whose column is absent, passes every
    row. *)
Theorem apply_filters_selects (df : DataFrame) (p : FilterParams) :
  wf df → year_ready df →
  apply_filters df p = Ok (loc_mask df (filter_mask df p)) ∧
  rows (loc_mask df (filter_mask df p)) = select (filter_mask df p) (rows df) ∧
  rows (loc_mask df (filter_mask df p)) `sublist_of` rows df ∧
  length (filter_mask df p) = length (index df).
Proof.
  intros Hwf Hy. split_and!.
  - by apply apply_filters_run.
  - apply rows_loc_mask.
  - rewrite rows_loc_mask. apply select_sublist.
  - unfold filter_mask. rewrite !length_zip_with.
    pose proof (length_eq_filter_mask df GENERO (genero p) Todos Hwf).
    pose proof (length_eq_filter_mask df PLATAFORMA (plataforma p) Todas Hwf).
    pose proof (length_year_filter_mask df (rango_anos p) Hwf). lia.
Qed.

Lemma zip_andb_lookup_true (a b : list bool) i :
  zip_with andb a b !! i = Some true ↔ a !! i = Some true ∧ b !! i = Some true.
Proof.
  rewrite lookup_zip_with_Some. split.
  - intros (x & y & Hxy & Hx & Hy). symmetry in Hxy.
    apply andb_true_iff in Hxy as [-> ->]. done.
  - intros [Ha Hb]. by exists true, true.
Qed.

Lemma filter_mask_lookup_true df p i :
  filter_mask df p !! i = Some true ↔
  eq_filter_mask df GENERO (genero p) Todos !! i = Some true ∧
  eq_filter_mask df PLATAFORMA (plataforma p) Todas !! i = Some true ∧
  year_filter_mask df (rango_anos p) !! i = Some true.
Proof. unfold filter_mask. rewrite !zip_andb_lookup_true. tauto. Qed.

(** X14. Every row that the exploration tab shows meets the selections,
    and it has a year: when the table has a year column, a row whose year
    is missing is never shown, whatever the selections; the years shown
    lie in the selected range, and the genres and platforms shown are the
    selected ones. *)
Theorem shown_rows_meet_selections (df d : DataFrame) (p : FilterParams) :
  wf df → year_ready df → apply_filters df p = Ok d →
  (∀ s, getitem d ANO = Some s → NaN ∉ values s) ∧
  (∀ s lo hi x, getitem d ANO = Some s → rango_anos p = Some (lo, hi) →
     Num x ∈ values s →
     number_leb (of_int lo) x = true ∧ number_leb x (of_int hi) = true) ∧
  (∀ s g, getitem d GENERO = Some s → genero p = Some g → g ≠ Todos →
     ∀ c, c ∈ values s → c = g) ∧
  (∀ s g, getitem d PLATAFORMA = Some s → plataforma p = Some g → g ≠ Todas →
     ∀ c, c ∈ values s → c = g).
Proof.
  intros Hwf Hy Hd.
  rewrite apply_filters_run in Hd by done. injection Hd as <-.
  assert (∀ col s c, getitem (loc_mask df (filter_mask df p)) col = Some s →
            c ∈ values s →
            ∃ s0 i, getitem df col = Some s0 ∧ values s0 !! i = Some c ∧
                    filter_mask df p !! i = Some true) as Hcell.
  { intros col s c. rewrite getitem_loc_mask.
    destruct (getitem df col) as [s0|]; [|done]. simpl. intros [= <-].
    rewrite values_select_series, elem_of_select. intros (i & ? & ?). eauto. }
  assert (∀ s0 i c, getitem df ANO = Some s0 → values s0 !! i = Some c →
            year_filter_mask df (rango_anos p) !! i = Some true →
            ∃ v x rango, s0 = Numeric v ∧ c = Num x ∧
              rango = default (series_min v, series_max v)
                 ((λ r, (Some (of_int r.1), Some (of_int r.2))) <$> rango_anos p) ∧
              (∃ l, rango.1 = Some l ∧ number_leb l x = true) ∧
              (∃ h, rango.2 = Some h ∧ number_leb x h = true)) as Hyear.
  { intros s0 i c Hs0 Hc. unfold year_filter_mask, year_ready in *.
    rewrite Hs0 in *. destruct s0 as [v|v]; [|done]. simpl in Hc.
    rewrite list_lookup_fmap in Hc.
    destruct (v !! i) as [o|] eqn:Hv; [|done]. injection Hc as <-.
    rewrite zip_andb_lookup_true. unfold ge_mask, le_mask.
    rewrite !list_lookup_fmap, Hv. simpl. intros [[= Hge] [= Hle]].
    destruct o as [x|]; [|done].
    eexists v, x, _. split_and!; try done.
    - destruct (default _ _).1 as [l|]; [eauto|done].
    - destruct (default _ _).2 as [h|]; [eauto|done]. }
  assert (∀ col choice sentinel s0 i c g,
            getitem df col = Some s0 → values s0 !! i = Some c →
            choice = Some g → g ≠ sentinel →
            eq_filter_mask df col choice sentinel !! i = Some true → c = g)
    as Heq.
  { intros col choice sentinel s0 i c g Hs0 Hc -> Hg. unfold eq_filter_mask.
    rewrite Hs0. simpl. rewrite bool_decide_eq_false_2 by done.
    unfold eq_mask. rewrite list_lookup_fmap, Hc. simpl.
    intros [= [_ Hcg%bool_decide_eq_true]%andb_true_iff]. done. }
  split_and!.
  - intros s Hs Hnan.
    destruct (Hcell _ _ _ Hs Hnan) as (s0 & i & Hs0 & Hi & Hm).
    apply filter_mask_lookup_true in Hm as (_ & _ & Hm).
    by destruct (Hyear _ _ _ Hs0 Hi Hm) as (v & x & r & _ & ? & _).
  - intros s lo hi x Hs Hr Hx.
    destruct (Hcell _ _ _ Hs Hx) as (s0 & i & Hs0 & Hi & Hm).
    apply filter_mask_lookup_true in Hm as (_ & _ & Hm).
    destruct (Hyear _ _ _ Hs0 Hi Hm)
      as (v & x' & r & _ & [= <-] & -> & (l & Hl & Hlx) & (h & Hh & Hxh)).
    rewrite Hr in Hl, Hh. simpl in Hl, Hh. by injection Hl as <-; injection Hh as <-.
  - intros s g Hs Hg Hne c Hc.
    destruct (Hcell _ _ _ Hs Hc) as (s0 & i & Hs0 & Hi & Hm).
    apply filter_mask_lookup_true in Hm as (Hm & _ & _).
    by apply (Heq _ _ _ _ _ _ _ Hs0 Hi Hg Hne Hm).
  - intros s g Hs Hg Hne c Hc.
    destruct (Hcell _ _ _ Hs Hc) as (s0 & i & Hs0 & Hi & Hm).
    apply filter_mask_lookup_true in Hm as (_ & Hm & _).
    by apply (Heq _ _ _ _ _ _ _ Hs0 Hi Hg Hne Hm).
Qed.

Lemma eq_filter_mask_sentinel df col choice sentinel :
  default sentinel choice = sentinel →
  eq_filter_mask df col choice sentinel = replicate (length (index df)) true.
Proof.
  intros Hc. unfold eq_filter_mask.
  destruct (getitem df col); [|done]. by rewrite bool_decide_eq_true_2.
Qed.

Lemma of_int_whole (q : Q) :
  Qden q = 1%positive → of_int (Z.quot (Qnum q) (Z.pos (Qden q))) = Finite q.
Proof.
  destruct q as [n d]. simpl. intros ->. unfold of_int, inject_Z.
  by rewrite Z.quot_1_r.
Qed.

(** X15. With the sentinels selected in both boxes and the slider at its
    full range, a table whose years are whole numbers is shown without
    the rows that have no year, and with all the others; it is shown
    whole when every row has a year. *)
Theorem full_range_shows_rows_with_year (df : DataFrame) (p : FilterParams)
    (v : list (option number)) (ano_min ano_max : Z) :
  wf df → getitem df ANO = Some (Numeric v) →
  year_bounds v = inr (ano_min, ano_max) →
  (∀ q, Some (Finite q) ∈ v → Qden q = 1%positive) →
  default Todos (genero p) = Todos →
  default Todas (plataforma p) = Todas →
  rango_anos p = Some (ano_min, ano_max) →
  apply_filters df p = Ok (loc_mask df ((λ o, bool_decide (is_Some o)) <$> v)) ∧
  ((∀ o, o ∈ v → is_Some o) → apply_filters df p = Ok df).
Proof.
  intros Hwf Hs Hb Hwhole Hg Hp Hr.
  assert (year_ready df) as Hy by (unfold year_ready; by rewrite Hs).
  assert (length v = length (index df)) as Hlen.
  { apply wf_getitem_length in Hs; [|done]. simpl in Hs. by rewrite length_fmap in Hs. }
  unfold year_bounds in Hb.
  destruct (series_min v) as [[lo|?]|] eqn:Hmin; simpl in Hb; try done.
  destruct (series_max v) as [[hi|?]|] eqn:Hmax; simpl in Hb; try done.
  injection Hb as <- <-.
  destruct (series_min_spec v _ Hmin) as [Hlo_in Hlo].
  destruct (series_max_spec v _ Hmax) as [Hhi_in Hhi].
  assert (filter_mask df p = (λ o, bool_decide (is_Some o)) <$> v) as Hmask.
  { unfold filter_mask. rewrite !eq_filter_mask_sentinel by done.
    rewrite zip_andb_true_l by (rewrite length_replicate; lia).
    unfold year_filter_mask. rewrite Hs, Hr. simpl.
    rewrite !of_int_whole by auto.
    rewrite zip_andb_true_l
      by (unfold ge_mask, le_mask; rewrite length_zip_with, !length_fmap; lia).
    unfold ge_mask, le_mask. rewrite zip_with_fmap_l, zip_with_fmap_r, zip_with_diag.
    apply list_fmap_ext. intros i [x|] Hi; [|done].
    apply list_elem_of_lookup_2 in Hi.
    by rewrite (Hlo x Hi), (Hhi x Hi), bool_decide_eq_true_2. }
  assert (apply_filters df p = Ok (loc_mask df ((λ o, bool_decide (is_Some o)) <$> v)))
    as Hrun by (by rewrite apply_filters_run, Hmask).
  split; [done|]. intros Hall. rewrite Hrun. f_equal.
  assert ((λ o : option number, bool_decide (is_Some o)) <$> v
          = replicate (length (index df)) true) as ->.
  { rewrite <- Hlen. clear -Hall. induction v as [|o v IH]; [done|]. simpl.
    rewrite bool_decide_eq_true_2 by (apply Hall; left). f_equal.
    apply IH. intros o' Ho'. apply Hall. by right. }
  by apply loc_mask_true.
Qed.

Section Sentinels.
Context {U : Unicode} {L : UnicodeLaws U}.

(** X16. The sentinels of the two select boxes are no values of a cleaned
    table: as upper-casing changes the words [Todos] and [Todas], and
    [clean_data] leaves upper-cased strings only in the genre and platform
    columns, no genre equals [Todos] and no platform equals [Todas]; a
    selection other than the sentinel is therefore never ignored. *)
Theorem sentinels_are_no_values (df df' : DataFrame) :
  str_upper (lit "Todos") ≠ lit "Todos" →
  str_upper (lit "Todas") ≠ lit "Todas" →
  wf df → clean_data df = Ok df' →
  (∀ s, getitem df' GENERO = Some s → Todos ∉ values s) ∧
  (∀ s, getitem df' PLATAFORMA = Some s → Todas ∉ values s).
Proof.
  intros HTodos HTodas Hwf Hc.
  assert (∀ col s w, col ∈ text_cols → getitem df' col = Some s →
            str_upper w ≠ w → Str w ∉ values s) as Hno.
  { intros col s w Hcol Hs Hw Hin.
    rewrite (getitem_clean_data df) in Hs by done.
    destruct (getitem (drop_duplicates df) col) as [s0|]; [|done].
    simpl in Hs. injection Hs as <-. unfold clean_series in Hin.
    rewrite decide_False in Hin by (intros ?; by eapply text_numeric_disjoint).
    rewrite decide_True in Hin by done. simpl in Hin.
    apply list_elem_of_fmap in Hin as (c0 & Hc0 & _).
    destruct (normalize_cell_shape c0) as [Hn|(t & _ & Hn)];
      rewrite Hn in Hc0; [done|].
    injection Hc0 as ->. apply Hw. apply str_upper_idem. }
  split; intros s Hs.
  - apply (Hno GENERO s); [by apply (bool_decide_unpack _)|done..].
  - apply (Hno PLATAFORMA s); [by apply (bool_decide_unpack _)|done..].
Qed.
End Sentinels.

Lemma all_true_replicate (m : list bool) :
  (∀ b, b ∈ m → b = true) → m = replicate (length m) true.
Proof.
  induction m as [|b m IH]; intros H; [done|]. simpl.
  rewrite (H b) by left. f_equal. apply IH. intros b' Hb'. apply H. by right.
Qed.

Lemma select_all_true (M m : list bool) :
  (∀ i, M !! i = Some true → m !! i = Some true) →
  ∀ b, b ∈ select M m → b = true.
Proof.
  intros H b (i & HM & Hm)%elem_of_select. apply H in HM. congruence.
Qed.

(** A column is within its own minimum and maximum. *)
Lemma self_range_all_true (w : list (option number)) :
  (∀ o, o ∈ w → is_Some o) →
  ∀ b, b ∈ zip_with andb (ge_mask (series_min w) w) (le_mask (series_max w) w) →
       b = true.
Proof.
  intros Hsome b (i & Hi)%list_elem_of_lookup_1.
  apply lookup_zip_with_Some in Hi as (x & y & -> & Hx & Hy).
  unfold ge_mask, le_mask in *. rewrite list_lookup_fmap in Hx, Hy.
  destruct (w !! i) as [o|] eqn:Ho; [|done]. simpl in Hx, Hy.
  injection Hx as <-. injection Hy as <-.
  apply list_elem_of_lookup_2 in Ho.
  destruct (Hsome o Ho) as [n ->].
  destruct (series_min w) as [lo|] eqn:Hmin.
  2:{ apply (proj1 (reduce_None _ _)) with (o := Some n) in Hmin; done. }
  destruct (series_max w) as [hi|] eqn:Hmax.
  2:{ apply (proj1 (reduce_None _ _)) with (o := Some n) in Hmax; done. }
  destruct (series_min_spec w _ Hmin) as [_ Hlo].
  destruct (series_max_spec w _ Hmax) as [_ Hhi].
  by rewrite (Hlo n Ho), (Hhi n Ho).
Qed.

(** X17. Filtering is idempotent: the selections that produced the table
    shown pass every row of that table, so that applying them to it once
    more gives the same table. *)
Theorem apply_filters_idempotent (df d : DataFrame) (p : FilterParams) :
  wf df → year_ready df → apply_filters df p = Ok d →
  apply_filters d p = Ok d.
Proof.
  intros Hwf Hy Hd. rewrite apply_filters_run in Hd by done.
  injection Hd as <-. set (M := filter_mask df p).
  assert (wf (loc_mask df M)) as Hwf' by by apply wf_loc_mask.
  assert (year_ready (loc_mask df M)) as Hy'.
  { unfold year_ready in *. rewrite getitem_loc_mask.
    by destruct (getitem df ANO) as [[]|]. }
  rewrite apply_filters_run by done.
  assert (∀ col choice sentinel b,
            b ∈ eq_filter_mask (loc_mask df M) col choice sentinel →
            (∀ i, M !! i = Some true →
                  eq_filter_mask df col choice sentinel !! i = Some true) →
            b = true) as Heq.
  { intros col choice sentinel b. unfold eq_filter_mask.
    rewrite getitem_loc_mask.
    destruct (getitem df col) as [s0|]; simpl;
      [|by intros [-> _]%elem_of_replicate].
    case_bool_decide; [by intros [-> _]%elem_of_replicate|].
    rewrite eq_mask_select. intros Hb HM. by eapply select_all_true. }
  assert (∀ b, b ∈ filter_mask (loc_mask df M) p → b = true) as Hall.
  { intros b (i & Hi)%list_elem_of_lookup_1. unfold filter_mask in Hi.
    apply lookup_zip_with_Some in Hi as (x & y & -> & Hx & Hyr).
    apply lookup_zip_with_Some in Hx as (x1 & x2 & -> & Hx1 & Hx2).
    apply list_elem_of_lookup_2 in Hx1, Hx2, Hyr.
    rewrite (Heq GENERO _ _ x1 Hx1), (Heq PLATAFORMA _ _ x2 Hx2).
    - simpl. revert Hyr. unfold year_filter_mask. rewrite getitem_loc_mask.
      destruct (getitem df ANO) as [[v|v]|] eqn:Hs; simpl;
        try by intros [-> _]%elem_of_replicate.
      assert (∀ o, o ∈ select M v → is_Some o) as Hsome.
      { intros o (j & HM & Hv)%elem_of_select.
        apply filter_mask_lookup_true in HM as (_ & _ & HM).
        unfold year_filter_mask in HM. rewrite Hs in HM.
        apply zip_andb_lookup_true in HM as [HM _].
        unfold ge_mask in HM. rewrite list_lookup_fmap, Hv in HM.
        by destruct o. }
      destruct (rango_anos p) as [[lo hi]|] eqn:Hr; simpl.
      + unfold ge_mask, le_mask. rewrite <- !select_fmap, <- select_zip_with.
        apply select_all_true. intros j HM.
        apply filter_mask_lookup_true in HM as (_ & _ & HM).
        unfold year_filter_mask in HM. by rewrite Hs, Hr in HM.
      + by apply self_range_all_true.
    - intros j HM. by apply filter_mask_lookup_true in HM as (_ & ? & _).
    - intros j HM. by apply filter_mask_lookup_true in HM as (? & _ & _). }
  rewrite (all_true_replicate _ Hall). f_equal.
  apply loc_mask_true; [done|].
  unfold filter_mask. rewrite !length_zip_with.
  pose proof (length_eq_filter_mask (loc_mask df M) GENERO (genero p) Todos Hwf').
  pose proof (length_eq_filter_mask (loc_mask df M) PLATAFORMA (plataforma p) Todas Hwf').
  pose proof (length_year_filter_mask (loc_mask df M) (rango_anos p) Hwf'). lia.
Qed.

(** ** The numbers of a cleaned table

    The numbers that are read from strings are printable, and cleaning
    keeps the numbers of a table printable. *)

Local Open Scope N_scope.

Lemma coprime_10 d : ¬ (2 | d) → ¬ (5 | d) → N.gcd d 10 = 1.
Proof.
  intros H2 H5.
  pose proof (N.gcd_divide_l d 10) as Hd.
  pose proof (N.gcd_divide_r d 10) as [c Hc].
  set (g := N.gcd d 10) in *.
  assert (g ≤ 10) as Hle by (destruct c; lia).
  assert (g = 0 ∨ g = 1 ∨ g = 2 ∨ g = 3 ∨ g = 4 ∨ g = 5 ∨ g = 6 ∨ g = 7 ∨
          g = 8 ∨ g = 9 ∨ g = 10) as Hg by lia.
  destruct Hg as [E|[E|[E|[E|[E|[E|[E|[E|[E|[E|E]]]]]]]]]];
    rewrite E in *; try lia; try done.
  destruct H2. apply N.divide_trans with 10; [by exists 5|done].
Qed.

Lemma divide_pow10_coprime d k : N.gcd d 10 = 1 → (d | 10 ^ k) → d = 1.
Proof.
  intros Hg. induction k as [|k IH] using N.peano_ind.
  - intros H%N.divide_1_r. done.
  - rewrite N.pow_succ_r'. intros H. apply IH. by apply N.gauss with 10.
Qed.

Lemma pow10_bound n d k :
  (N.to_nat d ≤ n)%nat → d ≠ 0 → (d | 10 ^ k) → ∃ j, 2 ^ j ≤ d ∧ (d | 10 ^ j).
Proof.
  revert d. induction n as [|n IH]; intros d Hn Hd Hdiv; [lia|].
  assert (∀ p d', (p = 2 ∨ p = 5) → d = p * d' → ∃ j, 2 ^ j ≤ d ∧ (d | 10 ^ j))
    as Hstep.
  { intros p d' Hp ->.
    destruct (IH d') as (j & Hj & Hdj).
    - destruct Hp as [-> | ->]; lia.
    - destruct d'; lia.
    - apply N.divide_trans with (p * d'); [|done]. by exists p; lia.
    - exists (N.succ j). rewrite !N.pow_succ_r'. split.
      + destruct Hp as [-> | ->]; lia.
      + destruct Hdj as [c Hc]. rewrite Hc.
        destruct Hp as [-> | ->]; [exists (5 * c)|exists (2 * c)]; lia. }
  destruct (N.eq_dec (d mod 2) 0) as [H2|H2].
  { apply N.Div0.mod_divides in H2 as [c Hc]. by apply (Hstep 2 c); [left|]. }
  destruct (N.eq_dec (d mod 5) 0) as [H5|H5].
  { apply N.Div0.mod_divides in H5 as [c Hc]. by apply (Hstep 5 c); [right|]. }
  assert (d = 1) as ->.
  { apply divide_pow10_coprime with k; [|done]. apply coprime_10.
    - intros [c Hc]. apply H2. rewrite Hc. apply N.Div0.mod_mul.
    - intros [c Hc]. apply H5. rewrite Hc. apply N.Div0.mod_mul. }
  exists 0. split; [cbn; lia|done].
Qed.

Lemma find_scale_finds fuel k0 j d :
  k0 ≤ j → j < k0 + N.of_nat fuel → (10 ^ j) mod d = 0 →
  is_Some (find_scale fuel k0 d).
Proof.
  revert k0. induction fuel as [|fuel IH]; intros k0 Hle Hlt Hj; [lia|].
  cbn [find_scale]. destruct (N.eqb_spec ((10 ^ k0) mod d) 0) as [|Hne]; [done|].
  apply IH; [|lia|done].
  destruct (N.eq_dec k0 j) as [->|]; [done|lia].
Qed.

Lemma find_scale_complete d k :
  d ≠ 0 → (d | 10 ^ k) →
  is_Some (find_scale (S (N.to_nat (N.size d))) 0 d).
Proof.
  intros Hd Hdiv.
  destruct (pow10_bound (N.to_nat d) d k) as (j & Hj & Hdj); [done..|].
  apply find_scale_finds with j; [lia| |].
  - pose proof (N.size_gt d) as Hs.
    assert (2 ^ j < 2 ^ N.size d) as Hlt by lia.
    apply N.pow_lt_mono_r_iff in Hlt; lia.
  - destruct Hdj as [c ->]. apply N.Div0.mod_mul.
Qed.

Lemma Qden_Qred_divide q : (Z.pos (Qden (Qred q)) | Z.pos (Qden q))%Z.
Proof.
  destruct q as [n d]. unfold Qred.
  pose proof (Z.ggcd_gcd n (Z.pos d)) as Hg.
  pose proof (Z.ggcd_correct_divisors n (Z.pos d)) as Hd.
  destruct (Z.ggcd n (Z.pos d)) as [g [a b]]. cbn [fst snd Qden] in *.
  destruct Hd as [_ Hb].
  assert (0 ≤ g)%Z as Hg0 by (rewrite Hg; apply Z.gcd_nonneg).
  assert (0 < b)%Z as Hb0 by nia.
  rewrite Z2Pos.id by done. exists g. lia.
Qed.

Lemma scale10_printable mz e : printable (Finite (scale10 mz e)).
Proof.
  unfold printable, scale10. destruct (Z.leb_spec 0 e) as [He|He].
  - split; [apply Qred_whole|]. by cbn.
  - split; [apply Qred_complete, Qred_correct|].
    set (q := Qred (mz # Z.to_pos (10 ^ - e))).
    unfold decimal_of.
    assert (is_Some (find_scale (S (N.to_nat (N.size (N.pos (Qden q))))) 0
                       (N.pos (Qden q)))) as [k ->]; [|by cbn].
    apply find_scale_complete with (Z.to_N (- e)); [done|].
    destruct (Qden_Qred_divide (mz # Z.to_pos (10 ^ - e))) as [c Hc].
    fold q in Hc. cbn [Qden] in Hc.
    rewrite Z2Pos.id in Hc by (apply Z.pow_pos_nonneg; lia).
    exists (Z.to_N c). apply N2Z.inj.
    rewrite N2Z.inj_mul, N2Z.inj_pow, !Z2N.id by nia.
    exact Hc.
Qed.

Lemma xstrtod_scale10 s q : xstrtod s = Some q → ∃ mz e, q = scale10 mz e.
Proof.
  unfold xstrtod.
  destruct (take_sign (skip_ws s)) as [neg s1].
  destruct (take_digits 0 0 s1) as [[ip n1] s2].
  destruct (take_fraction ip s2) as [[m n2] s3].
  destruct (n1 + n2)%nat; [done|].
  destruct (take_exponent s3) as [[e s4]|]; [|done].
  destruct (skip_ws s4); [|done].
  intros [= <-]. eauto.
Qed.

Lemma floatify_printable t x : floatify t = Some x → printable x.
Proof.
  unfold floatify. destruct (xstrtod t) as [q|] eqn:Hq.
  - intros [= <-]. apply xstrtod_scale10 in Hq as (mz & e & ->).
    apply scale10_printable.
  - destruct (parse_inf t); [|done]. by intros [= <-].
Qed.

(** Cleaning keeps the numbers printable. *)
Lemma cell_ok_select mask (cells : list cell) :
  Forall cell_ok cells → Forall cell_ok (select mask cells).
Proof.
  rewrite !Forall_forall. intros H c (i & _ & Hc)%elem_of_select.
  by eapply H, list_elem_of_lookup_2.
Qed.
Local Close Scope N_scope.

Section CleanExport.
Context {U : Unicode}.

Lemma cell_ok_clean_cell n c : cell_ok c → cell_ok (clean_cell n c).
Proof.
  intros Hc. unfold clean_cell.
  destruct (decide (n ∈ numeric_cols)).
  - destruct c as [t|x|]; cbn; [|done..].
    destruct (floatify t) as [x|] eqn:Hx; cbn; [|done].
    by eapply floatify_printable.
  - destruct (decide (n ∈ text_cols)); [|done]. by destruct c.
Qed.

Lemma clean_data_cell_ok df df' :
  wf df → clean_data df = Ok df' →
  Forall (λ c, Forall cell_ok (values c.2)) (data df) →
  Forall (λ c, Forall cell_ok (values c.2)) (data df').
Proof.
  intros Hwf Hc Hok. apply clean_data_Ok in Hc as [_ ->]; [|done]. cbn [data].
  unfold drop_duplicates. rewrite data_loc_mask, transform_compose.
  unfold transform. apply Forall_fmap, Forall_forall.
  intros [n s] Hin. cbn. rewrite Forall_forall in Hok.
  rewrite values_clean_series, values_select_series.
  apply Forall_fmap, Forall_forall. intros c Hcell.
  apply cell_ok_clean_cell.
  assert (Forall cell_ok (select (negb <$> duplicated df) (values s))) as Hs
    by apply cell_ok_select, (Hok (n, s) Hin).
  rewrite Forall_forall in Hs. by apply Hs.
Qed.
End CleanExport.

(** * Part V: the program on concrete inputs *)

Local Existing Instance ascii_unicode.

Example clean_aab :
  clean_data tbl_aab =
    Ok {| index := [0; 2]%Z;
          data := [ (lit "ID", Object [Str (lit "a1"); Str (lit "b2")]);
                    (lit "NOTA", Numeric [Some (Finite 7); None]) ] |}.
Proof. reflexivity. Qed.

Example clean_spelling : clean_data tbl_spelling = Ok tbl_spelling_clean.
Proof. reflexivity. Qed.

Example clean_titles :
  clean_data tbl_titles =
    Ok {| index := [0; 1; 2]%Z;
          data := [ (TITULO, Object [Str (lit "ZELDA"); Str (lit "MARIO"); NaN]);
                    (lit "notas", Object [Str (lit " sin tocar "); NaN; Str (lit "x")]) ] |}.
Proof. reflexivity. Qed.

Ltac wf_compute := apply (bool_decide_unpack _); vm_compute; exact I.

(** The pipeline on rows [A; A; B]. *)
Lemma dedup_raw_first_occurrence_witness :
  wf tbl_aab ∧
  index (drop_duplicates tbl_aab) = [0; 2]%Z ∧
  rows (drop_duplicates tbl_aab) =
    [ [Str (lit "a1"); Num (Finite 7)]; [Str (lit "b2"); NaN] ] ∧
  NoDup (rows (drop_duplicates tbl_aab)).
Proof.
  assert (wf tbl_aab) as Hwf by wf_compute.
  destruct (dedup_raw_first_occurrence tbl_aab Hwf)
    as (_ & Hix & Hrows & _ & Hnd & _).
  split; [exact Hwf|]. split; [exact Hix|]. split; [exact Hrows|]. exact Hnd.
Defined.

Lemma numeric_coercion_degrades_witness :
  wf tbl_years ∧ ANO ∈ numeric_cols ∧
  getitem (coerce_numeric (drop_duplicates tbl_years)) ANO
    = Some (Numeric [Some (Finite 2020); None; None]).
Proof.
  assert (wf tbl_years) as Hwf by wf_compute.
  assert (ANO ∈ numeric_cols) as Hcol by wf_compute.
  split; [exact Hwf|]. split; [exact Hcol|].
  exact (proj1 (numeric_coercion_degrades tbl_years ANO
                  (Object [Str (lit "2020"); Str (lit "abc"); Str []])
                  Hwf Hcol eq_refl)).
Defined.

Lemma clean_data_frame_witness :
  wf tbl_titles ∧
  columns (match clean_data tbl_titles with Ok df' => df' | Raise _ => tbl_titles end)
    = [TITULO; lit "notas"] ∧
  getitem (match clean_data tbl_titles with Ok df' => df' | Raise _ => tbl_titles end)
    (lit "notas") = Some (Object [Str (lit " sin tocar "); NaN; Str (lit "x")]).
Proof.
  assert (wf tbl_titles) as Hwf by wf_compute.
  destruct (clean_data_frame tbl_titles _ Hwf clean_titles) as [Hcols Hframe].
  split; [exact Hwf|]. split; [exact Hcols|].
  apply (Hframe (lit "notas")
           (Object [Str (lit " sin tocar "); NaN; Str (lit "x")])).
  - by apply (bool_decide_unpack _).
  - by apply (bool_decide_unpack _).
  - reflexivity.
Defined.

(** C2, as stated, fails: the two rows of this table differ before
    cleaning, both survive deduplication, and they are identical in the
    table that [clean_data] returns. *)
Lemma clean_table_rows_counterexample :
  clean_data tbl_spelling = Ok tbl_spelling_clean ∧
  rows tbl_spelling_clean =
    [ [Str (lit "ZELDA"); Num (Finite 2020)];
      [Str (lit "ZELDA"); Num (Finite 2020)];
      [Str (lit "MARIO"); NaN] ] ∧
  ¬ NoDup (rows tbl_spelling_clean).
Proof.
  split; [reflexivity|]. split; [reflexivity|].
  intros Hnd. apply NoDup_cons in Hnd as [Hn _]. apply Hn. left.
Qed.

Lemma clean_table_invariant_witness :
  wf tbl_spelling ∧ clean_data tbl_spelling = Ok tbl_spelling_clean ∧
  NoDup (rows (drop_duplicates tbl_spelling)) ∧
  ∀ c, c ∈ [Str (lit "ZELDA"); Str (lit "ZELDA"); Str (lit "MARIO")] →
    c = NaN ∨ ∃ t, c = Str t ∧ str_strip t = t ∧ str_upper t = t.
Proof.
  assert (wf tbl_spelling) as Hwf by wf_compute.
  destruct (clean_table_invariant (L := ascii_laws) tbl_spelling tbl_spelling_clean
              Hwf eq_refl) as (_ & Htext & Hnd & _).
  split; [exact Hwf|]. split; [reflexivity|]. split; [exact Hnd|].
  intros c Hc.
  apply (Htext TITULO
           (Object [Str (lit "ZELDA"); Str (lit "ZELDA"); Str (lit "MARIO")]) c).
  - by apply (bool_decide_unpack _).
  - reflexivity.
  - exact Hc.
Defined.

(** C1, as stated, fails: two strings that are not numbers are distinct
    cells before coercion and the same missing marker after it, so that a
    second run removes a row. *)
Lemma clean_data_twice_counterexample :
  clean_data tbl_unparsable = Ok tbl_unparsable_clean ∧
  clean_data tbl_unparsable_clean = Ok tbl_unparsable_clean2 ∧
  tbl_unparsable_clean2 ≠ tbl_unparsable_clean ∧
  clean_data tbl_unparsable ≫= clean_data ≠ clean_data tbl_unparsable.
Proof. repeat split; try reflexivity; discriminate. Qed.

Lemma clean_data_twice_witness :
  wf tbl_unparsable ∧ clean_data tbl_unparsable = Ok tbl_unparsable_clean ∧
  clean_data tbl_unparsable_clean = Ok (drop_duplicates tbl_unparsable_clean).
Proof.
  assert (wf tbl_unparsable) as Hwf by wf_compute.
  split; [exact Hwf|]. split; [reflexivity|].
  exact (proj1 (clean_data_twice (L := ascii_laws) tbl_unparsable
                  tbl_unparsable_clean Hwf eq_refl)).
Defined.

(** C7 at a table whose GÉNERO column holds missing markers only, as a
    numeric column: whatever the character database, [clean_data] raises
    [AttributeError] instead of passing the missing markers through. *)
Theorem text_normalization_raises :
  ∀ U : Unicode, @clean_data U tbl_empty_genre = Raise AttributeError.
Proof. reflexivity. Qed.

Lemma clean_data_preserves_input_witness :
  ({[ 0 := tbl_spelling ]} : gmap ref DataFrame) !! 0 = Some tbl_spelling ∧
  (clean_data_cmd 0 {[ 0 := tbl_spelling ]}).2 !! 0 = Some tbl_spelling.
Proof.
  assert (({[ 0 := tbl_spelling ]} : gmap ref DataFrame) !! 0 = Some tbl_spelling)
    as Hr by reflexivity.
  split; [exact Hr|].
  exact (proj1 (clean_data_preserves_input {[ 0 := tbl_spelling ]} _ 0 tbl_spelling _
                  Hr (surjective_pairing _))).
Defined.

(** The delimiter of some first lines; a tie gives the semicolon. *)
Example choose_delimiter_examples :
  choose_delimiter (lit "a,b,c") = comma ∧
  choose_delimiter (lit "a;b;c") = semicolon ∧
  choose_delimiter (lit "a,b;c") = semicolon ∧
  choose_delimiter (lit "sin separadores") = semicolon ∧
  choose_delimiter (TITULO ++ [59%N] ++ ANO ++ [59%N] ++ PRECIO) = semicolon.
Proof. repeat split. Qed.

(** The path loader decodes no more than the chunks it reads: the first
    line of [long_bytes] is read from the first chunk, although the file
    as a whole is no ASCII text. *)
Example detect_reads_first_chunk :
  codec_decode (Platform := long_platform) "ascii" long_bytes
    = Raise UnicodeDecodeError ∧
  detect_file_properties (P := long_platform) archivo
    = Ok (Some "ascii"%string, comma).
Proof. split; vm_compute; reflexivity. Qed.

(** C4. The two entry points do not choose the delimiter identically. On
    a file with the line ends of classic Mac OS, whose header holds one
    comma and no semicolon, the path loader reads the header as the first
    line and returns [","], while the upload loader, given the same bytes,
    decoded to the same text, takes everything up to the first line feed
    for the first line and passes [";"] to the CSV parser. *)
Theorem delimiter_detection_bare_cr :
  read_binary (Platform := mac_platform) archivo = Ok mac_bytes ∧
  bytes_decode (P := mac_platform) (Some "ascii"%string) mac_bytes = Ok mac_text ∧
  readline_universal mac_text = lit "TITULO,NOTA" ++ [10%N] ∧
  count_char semicolon (lit "TITULO,NOTA") < count_char comma (lit "TITULO,NOTA") ∧
  detect_file_properties (P := mac_platform) archivo
    = Ok (Some "ascii"%string, comma) ∧
  load_uploaded_file (P := mac_platform) mac_bytes []
    = (Ok (Some {| index := []; data := [] |}),
       [EvDecode (Some "ascii"%string); EvReadCsv mac_text semicolon]).
Proof. split_and!; vm_compute; reflexivity || lia. Qed.

(** A buffer that is not valid UTF-8 is loaded through the fallback. *)
Example load_latin1_buffer :
  load_uploaded_file (P := toy_platform) latin1_bytes [] =
    (Ok (Some {| index := []; data := [] |}),
     [ EvDecode (Some "utf-8"%string);
       EvDecode (Some latin1);
       EvReadCsv [110; 59; 241; 10]%N semicolon ]).
Proof. reflexivity. Qed.

(** When the parser rejects the text of the fallback as well, the cause
    is shown and the loader returns [None]. *)
Example load_rejected_buffer :
  load_uploaded_file (P := rejecting_platform) latin1_bytes [] =
    (Ok None,
     [ EvDecode (Some "utf-8"%string);
       EvDecode (Some latin1);
       EvReadCsv [110; 59; 241; 10]%N semicolon;
       EvError (OtherError 1) ]).
Proof. reflexivity. Qed.

Lemma single_latin1_fallback_witness :
  bytes_decode (P := toy_platform) (Some "utf-8"%string) latin1_bytes
    = Raise UnicodeDecodeError ∧
  decodes (load_uploaded_file (P := toy_platform) latin1_bytes []).2
    = [Some "utf-8"%string; Some latin1].
Proof.
  split; [reflexivity|].
  exact (proj1 (single_latin1_fallback (P := toy_platform) latin1_bytes) eq_refl).
Defined.

(** ** The further properties on concrete inputs *)

Lemma drop_duplicates_column_values_witness :
  wf tbl_aab ∧
  ∃ s', getitem (drop_duplicates tbl_aab) (lit "ID") = Some s' ∧
        values s' `sublist_of` [Str (lit "a1"); Str (lit "a1"); Str (lit "b2")] ∧
        (∀ c, c ∈ values s' ↔ c ∈ [Str (lit "a1"); Str (lit "a1"); Str (lit "b2")]) ∧
        length (values s') = length (index (drop_duplicates tbl_aab)).
Proof.
  assert (wf tbl_aab) as Hwf by wf_compute.
  split; [exact Hwf|].
  exact (drop_duplicates_column_values tbl_aab (lit "ID")
           (Object [Str (lit "a1"); Str (lit "a1"); Str (lit "b2")]) Hwf eq_refl).
Defined.

Lemma clean_data_raises_attribute_error_witness :
  wf tbl_empty_genre ∧
  (clean_data tbl_empty_genre = Raise AttributeError ↔
     ∃ col s, col ∈ text_cols ∧ getitem tbl_empty_genre col = Some s ∧
              str_ok s = false).
Proof.
  assert (wf tbl_empty_genre) as Hwf by wf_compute.
  split; [exact Hwf|].
  exact (proj2 (clean_data_raises_attribute_error tbl_empty_genre Hwf)).
Defined.

Lemma clean_data_shape_witness :
  wf tbl_aab ∧ clean_data tbl_aab = Ok tbl_aab_clean ∧
  (shape tbl_aab_clean).2 = (shape tbl_aab).2 ∧
  (shape tbl_aab_clean).1 ≤ (shape tbl_aab).1.
Proof.
  assert (wf tbl_aab) as Hwf by wf_compute.
  destruct (clean_data_shape tbl_aab tbl_aab_clean Hwf eq_refl) as (Hc & Hr & _).
  split; [exact Hwf|]. split; [reflexivity|]. split; [exact Hc | exact Hr].
Defined.

Lemma clean_data_isnull_count_witness :
  wf tbl_years ∧ clean_data tbl_years = Ok tbl_years_clean ∧
  isnull_count (drop_duplicates tbl_years) ≤ isnull_count tbl_years_clean.
Proof.
  assert (wf tbl_years) as Hwf by wf_compute.
  split; [exact Hwf|]. split; [reflexivity|].
  exact (clean_data_isnull_count tbl_years tbl_years_clean Hwf eq_refl).
Defined.

Lemma first_line_decides_witness :
  10%N ∉ lit "a,b,c;d" ∧ 13%N ∉ lit "a,b,c;d" ∧
  choose_delimiter (readline (lit "a,b,c;d" ++ 13%N :: 10%N :: lit "1;2;3;4"))
    = choose_delimiter (lit "a,b,c;d") ∧
  choose_delimiter (readline_universal (lit "a,b,c;d" ++ 13%N :: 10%N :: lit "1;2;3;4"))
    = choose_delimiter (lit "a,b,c;d").
Proof.
  assert (10%N ∉ lit "a,b,c;d") as Hlf by wf_compute.
  assert (13%N ∉ lit "a,b,c;d") as Hcr by wf_compute.
  destruct (first_line_decides (lit "a,b,c;d") (lit "1;2;3;4") Hlf Hcr)
    as (_ & _ & _ & _ & H1 & H2).
  split; [exact Hlf|]. split; [exact Hcr|]. split; [exact H1 | exact H2].
Defined.

Lemma bare_carriage_return_witness :
  10%N ∉ lit "a,b" ∧ 13%N ∉ lit "a,b" ∧
  choose_delimiter (readline_universal (lit "a,b" ++ 13%N :: lit "1;2;3"))
    = choose_delimiter (lit "a,b") ∧
  choose_delimiter (readline (lit "a,b" ++ 13%N :: lit "1;2;3"))
    = choose_delimiter (lit "a,b" ++ readline (lit "1;2;3")).
Proof.
  assert (10%N ∉ lit "a,b") as Hlf by wf_compute.
  assert (13%N ∉ lit "a,b") as Hcr by wf_compute.
  split; [exact Hlf|]. split; [exact Hcr|].
  exact (bare_carriage_return (lit "a,b") (lit "1;2;3") Hlf Hcr).
Defined.

(** On a text with bare carriage returns the two loaders choose
    different delimiters. *)
Example bare_carriage_return_splits :
  choose_delimiter (readline_universal (lit "a,b" ++ 13%N :: lit "1;2;3")) = comma ∧
  choose_delimiter (readline (lit "a,b" ++ 13%N :: lit "1;2;3")) = semicolon.
Proof. split; reflexivity. Qed.

Lemma load_uploaded_file_no_encoding_witness :
  chardet_detect (Platform := blind_platform) header_bytes = None ∧
  load_uploaded_file (P := blind_platform) header_bytes []
    = (Raise TypeError, [EvDecode None]).
Proof.
  split; [reflexivity|].
  exact (load_uploaded_file_no_encoding (P := blind_platform) header_bytes eq_refl).
Defined.

Lemma failed_upload_reaches_clean_data_witness :
  (load_uploaded_file (P := rejecting_platform) latin1_bytes []).1 = Ok None ∧
  (main_load (P := rejecting_platform) (Some latin1_bytes) []).1
    = Raise AttributeError.
Proof.
  split; [reflexivity|].
  exact (proj1 (failed_upload_reaches_clean_data (P := rejecting_platform)
                  latin1_bytes eq_refl)).
Defined.

Lemma year_bounds_enclose_witness :
  year_bounds [Some (Finite 1998); Some (Finite 1996); Some (Finite 1993); None]
    = inr (1993, 1998)%Z ∧
  (1993 ≤ 1998)%Z ∧
  ano_mas_reciente [Some (Finite 1998); Some (Finite 1996); Some (Finite 1993); None]
    = inr 1998%Z.
Proof.
  destruct (year_bounds_enclose
              [Some (Finite 1998); Some (Finite 1996); Some (Finite 1993); None]
              1993 1998 eq_refl) as (Hle & Hmax & _).
  split; [reflexivity|]. split; [exact Hle | exact Hmax].
Defined.

Lemma no_year_raises_value_error_witness :
  wf tbl_unparsable ∧ clean_data tbl_unparsable = Ok tbl_unparsable_clean ∧
  ∃ v, getitem tbl_unparsable_clean ANO = Some (Numeric v) ∧
       (∀ o, o ∈ v → o = None) ∧
       ano_mas_reciente v = inl ValueError ∧
       year_bounds v = inl ValueError.
Proof.
  assert (wf tbl_unparsable) as Hwf by wf_compute.
  split; [exact Hwf|]. split; [reflexivity|].
  apply (no_year_raises_value_error tbl_unparsable tbl_unparsable_clean
           (Object [Str (lit "abc"); Str (lit "xyz")]) Hwf eq_refl eq_refl).
  intros c Hc. simpl in Hc.
  apply elem_of_cons in Hc as [->|Hc]; [reflexivity|].
  apply elem_of_cons in Hc as [->|Hc]; [reflexivity|].
  by apply elem_of_nil in Hc.
Defined.

Example filter_games :
  apply_filters tbl_games sel_aventura =
    Ok {| index := [0]%Z;
          data := [ (TITULO, Object [Str (lit "ZELDA")]);
                    (GENERO, Object [Str (lit "AVENTURA")]);
                    (ANO, Numeric [Some (Finite 1998)]) ] |}.
Proof. reflexivity. Qed.

Lemma apply_filters_selects_witness :
  wf tbl_games ∧ year_ready tbl_games ∧
  apply_filters tbl_games sel_aventura
    = Ok (loc_mask tbl_games (filter_mask tbl_games sel_aventura)) ∧
  filter_mask tbl_games sel_aventura = [true; false; false; false].
Proof.
  assert (wf tbl_games) as Hwf by wf_compute.
  split; [exact Hwf|]. split; [exact I|]. split; [|reflexivity].
  exact (proj1 (apply_filters_selects tbl_games sel_aventura Hwf I)).
Defined.

Lemma shown_rows_meet_selections_witness :
  wf tbl_games ∧ year_ready tbl_games ∧
  ∀ s, getitem (loc_mask tbl_games (filter_mask tbl_games sel_default)) ANO = Some s →
       NaN ∉ values s.
Proof.
  assert (wf tbl_games) as Hwf by wf_compute.
  split; [exact Hwf|]. split; [exact I|].
  exact (proj1 (shown_rows_meet_selections tbl_games _ sel_default Hwf I eq_refl)).
Defined.

Lemma full_range_shows_rows_with_year_witness :
  wf tbl_games ∧
  apply_filters tbl_games sel_default
    = Ok (loc_mask tbl_games [true; true; true; false]).
Proof.
  assert (wf tbl_games) as Hwf by wf_compute.
  split; [exact Hwf|].
  refine (proj1 (full_range_shows_rows_with_year tbl_games sel_default
                   [Some (Finite 1998); Some (Finite 1996); Some (Finite 1993); None]
                   1993 1998 Hwf eq_refl eq_refl _ eq_refl eq_refl eq_refl)).
  intros q Hq.
  repeat (apply elem_of_cons in Hq as [Hq|Hq]; [by simplify_eq|]).
  by apply elem_of_nil in Hq.
Defined.

Lemma sentinels_are_no_values_witness :
  wf tbl_todos ∧ clean_data tbl_todos = Ok tbl_todos_clean ∧
  getitem tbl_todos_clean GENERO
    = Some (Object [Str (lit "TODOS"); Str (lit "AVENTURA")]) ∧
  getitem tbl_todos_clean PLATAFORMA
    = Some (Object [Str (lit "TODAS"); Str (lit "SWITCH")]) ∧
  Todos ∉ [Str (lit "TODOS"); Str (lit "AVENTURA")] ∧
  Todas ∉ [Str (lit "TODAS"); Str (lit "SWITCH")].
Proof.
  assert (wf tbl_todos) as Hwf by wf_compute.
  assert (str_upper (lit "Todos") ≠ lit "Todos") as Hos by discriminate.
  assert (str_upper (lit "Todas") ≠ lit "Todas") as Has by discriminate.
  destruct (sentinels_are_no_values (L := ascii_laws) tbl_todos tbl_todos_clean
              Hos Has Hwf eq_refl) as [Hg Hp].
  split; [exact Hwf|]. split; [reflexivity|].
  split; [reflexivity|]. split; [reflexivity|].
  split; [exact (Hg _ eq_refl) | exact (Hp _ eq_refl)].
Defined.

Lemma apply_filters_idempotent_witness :
  wf tbl_games ∧ year_ready tbl_games ∧
  apply_filters (loc_mask tbl_games (filter_mask tbl_games sel_aventura)) sel_aventura
    = Ok (loc_mask tbl_games (filter_mask tbl_games sel_aventura)).
Proof.
  assert (wf tbl_games) as Hwf by wf_compute.
  split; [exact Hwf|]. split; [exact I|].
  exact (apply_filters_idempotent tbl_games _ sel_aventura Hwf I eq_refl).
Defined.

(** ** The CSV export on concrete tables *)

(** The export of a cleaned table, and what is read back from it: the
    quoted fields come back as they were, a missing cell comes back as
    missing, and the price [1e-05] comes back as a number. *)
Example export_example :
  to_csv [10%N] tbl_export
    = TITULO ++ lit "," ++ PRECIO ++ lit ",notas" ++ [10%N] ++
      [34%N] ++ lit "ZELDA, THE" ++ [34%N] ++ lit ",19.99," ++
      [34%N] ++ lit "dos" ++ [10%N] ++ lit "renglones" ++ [34%N] ++ [10%N] ++
      [34%N] ++ lit "SAY " ++ [34%N; 34%N] ++ lit "HI" ++ [34%N; 34%N; 34%N] ++
      lit ",1e-05," ++ [10%N] ++
      lit ",, 007 " ++ [10%N] ∧
  read_back (to_csv [10%N] tbl_export)
    = Some [ [RStr (lit "ZELDA, THE");
              RStr (lit "SAY " ++ [34%N] ++ lit "HI" ++ [34%N]); RNaN];
             [RNum (Finite (1999 # 100)); RNum (Finite (1 # 100000)); RNaN];
             [RStr (lit "dos" ++ [10%N] ++ lit "renglones"); RNaN;
              RStr (lit " 007 ")] ].
Proof. split; vm_compute; reflexivity. Qed.

(** A column of the words [TRUE] and [false] is read back as a column of
    truth values. *)
Example truth_values_read_back :
  read_back (to_csv [10%N] tbl_truth) = Some [ [RBool true; RBool false] ].
Proof. reflexivity. Qed.

(** In the export of a table of one column, a cell of blanks makes a
    blank line, and the row is not read back. *)
Example blank_line_skipped :
  to_csv [10%N] tbl_blank
    = lit "notas" ++ [10%N] ++ lit "  " ++ [10%N] ++ lit "x" ++ [10%N] ∧
  read_back (to_csv [10%N] tbl_blank) = Some [ [RStr (lit "x")] ] ∧
  ¬ exportable tbl_blank.
Proof.
  split; [reflexivity|]. split; [reflexivity|].
  apply (bool_decide_eq_false_1 (exportable tbl_blank)). reflexivity.
Qed.


